(** * Hornet: gossip service event loop and snapshot pruning

    A shallow embedding of
      - pkg/protocol/gossip/service.go   (module [Gossip])
      - plugins/snapshot/pruning.go      (module [Pruning])
    together with the properties of the two subsystems.

    Go code that mutates the receiver ([s.streams], the event bus, the
    transport) is written in a small state monad over a record holding that
    state; every externally visible call (a fired event, a stream reset, a
    store deletion) is appended to a chronological trace kept in the state. *)

From Stdlib Require Import ZArith List Bool Lia.
From stdpp Require Import base option gmap strings list fin_maps.

Local Open Scope Z_scope.

(** ** A state monad for receiver-mutating code *)

Module St.

Definition M (S A : Type) : Type := S -> A * S.

Definition ret {S A} (a : A) : M S A := fun s => (a, s).

Definition bind {S A B} (m : M S A) (k : A -> M S B) : M S B :=
  fun s => let '(a, s') := m s in k a s'.

Definition get {S} : M S S := fun s => (s, s).

Definition modify {S} (f : S -> S) : M S unit := fun s => (tt, f s).

Definition exec {S A} (m : M S A) (s : S) : S := snd (m s).

Definition eval {S A} (m : M S A) (s : S) : A := fst (m s).

End St.

#[global] Instance St_mret {S} : MRet (St.M S) := fun A a => St.ret a.
#[global] Instance St_mbind {S} : MBind (St.M S) := fun A B k m => St.bind m k.

(** ** The gossip service *)

Module Gossip.

(** peer.ID of libp2p: an opaque identity used as a map key. *)
Definition PeerID : Type := string.

(** Modelled from the spec: p2p.PeerRelation is declared in pkg/p2p, which is
    not among the sources; the spec lists the relations Unknown, Known and
    Autopeered. *)
Inductive PeerRelation : Type :=
  | PeerRelationUnknown
  | PeerRelationKnown
  | PeerRelationAutopeered.

(** Modelled from the spec: p2p.Peer, of which the service reads [ID] and
    [Relation]. *)
Record Peer : Type := mkPeer { ID : PeerID; Relation : PeerRelation }.

(** network.Direction of libp2p. *)
Inductive Direction : Type := DirUnknown | DirInbound | DirOutbound.

(** network.Conn: the service uses [RemotePeer], [Stat().Direction] and
    [Close]. *)
Record Conn : Type := mkConn {
  connID : nat;
  RemotePeer : PeerID;
  StatDirection : Direction
}.

(** network.Stream: a handle with its underlying connection. *)
Record Stream : Type := mkStream { streamID : nat; StreamConn : Conn }.

(** Errors: the ones of the transport and the two wrappers built with
    fmt.Errorf in service.go. *)
Inductive error : Type :=
  | TransportError (msg : string)
  | ErrCreateStream (peerID : PeerID) (cause : error)
  | ErrResetStream (peerID : PeerID) (cause : error).

(** Modelled from the spec: the protocol session of protocol.go, as built by
    NewProtocol(peerID, stream, sendQueueSize): the owning peer, the stream
    handle and the size of the send queue. *)
Record Protocol : Type := NewProtocol {
  ProtoPeerID : PeerID;
  ProtoStream : Stream;
  ProtoSendQueueSize : Z
}.

Definition StreamCancelReason : Type := string.
Definition StreamCancelReasonDuplicated : StreamCancelReason :=
  "duplicated stream"%string.
Definition StreamCancelReasonInsufficientPeerRelation : StreamCancelReason :=
  "insufficient peer relation"%string.

Definition defaultSendQueueSize : Z := 1000.

(** Everything the service does that is visible outside of [streams]: the
    four events of [ServiceEvents], the calls into the transport, and the
    replies sent on the per-request channels. *)
Inductive Effect : Type :=
  | ProtocolStarted (proto : Protocol)
  | ProtocolTerminated (proto : Protocol)
  | InboundStreamCancelled (stream : Stream) (reason : StreamCancelReason)
  | Error (err : error)
  | ConnClose (conn : Conn)
  | StreamReset (stream : Stream)
  | StreamNew (peerID : PeerID)
  | StreamRead (stream : Stream)
  | ReplyProtocol (proto : option Protocol)
  | ForEachCall (proto : Protocol)
  | ReplyForEach.

#[global] Instance PeerRelation_eq_dec : EqDecision PeerRelation.
Proof. solve_decision. Defined.
#[global] Instance Direction_eq_dec : EqDecision Direction.
Proof. solve_decision. Defined.
#[global] Instance Conn_eq_dec : EqDecision Conn.
Proof. solve_decision. Defined.
#[global] Instance Stream_eq_dec : EqDecision Stream.
Proof. solve_decision. Defined.
#[global] Instance error_eq_dec : EqDecision error.
Proof. solve_decision. Defined.
#[global] Instance Protocol_eq_dec : EqDecision Protocol.
Proof. solve_decision. Defined.
#[global] Instance Effect_eq_dec : EqDecision Effect.
Proof. solve_decision. Defined.

(** The collaborators' answers: what host.NewStream returns for a peer and
    whether resetting a stream fails. *)
Record Transport : Type := mkTransport {
  hostNewStream : PeerID -> error + Stream;
  streamResetResult : Stream -> option error
}.

(** The Service: [streams] is owned by the event loop; [manager] is the
    peer table behind p2p.Manager.Call; [trace] collects the effects in the
    order in which they happen. *)
Record Service : Type := mkService {
  streams : gmap PeerID Protocol;
  manager : gmap PeerID Peer;
  optsSendQueueSize : Z;
  host : Transport;
  trace : list Effect
}.

Definition set_streams (f : gmap PeerID Protocol -> gmap PeerID Protocol)
    (s : Service) : Service :=
  mkService (f (streams s)) (manager s) (optsSendQueueSize s) (host s) (trace s).

Definition emit (e : Effect) (s : Service) : Service :=
  mkService (streams s) (manager s) (optsSendQueueSize s) (host s)
            (trace s ++ [e]).

Abbreviation M := (St.M Service).

(** s.Events.X.Trigger(...) and the calls into the transport. *)
Definition Trigger (e : Effect) : M unit := St.modify (emit e).

(** stream.Conn().Close(): the result is discarded by the only caller. *)
Definition connClose (c : Conn) : M unit := Trigger (ConnClose c).

(** stream.Reset() *)
Definition streamReset (st : Stream) : M (option error) :=
  Trigger (StreamReset st);;
  s ← St.get;
  St.ret (streamResetResult (host s) st).

(** Modelled from the spec: s.manager.Call(peerID, f) synchronously hands
    the peer record to f if the peer is known. The closure of handleInboundStream only sets a flag, so f is taken as
    a function to bool and Call returns the flag ([false] when f is never
    invoked). *)
Definition managerCall (peerID : PeerID) (f : Peer -> bool) : M bool :=
  s ← St.get;
  St.ret (match manager s !! peerID with
          | Some p => f p
          | None => false
          end).

(** closes the given unwanted stream by closing the underlying connection
    and the stream itself. *)
Definition closeUnwantedStream (stream : Stream) : M unit :=
  connClose (StreamConn stream);;
  _ ← streamReset stream;
  St.ret tt.

(** registers a protocol instance for the given peer and stream. *)
Definition registerProtocol (peerID : PeerID) (stream : Stream) : M Protocol :=
  s ← St.get;
  let proto := NewProtocol peerID stream (optsSendQueueSize s) in
  St.modify (set_streams (insert peerID proto));;
  St.ret proto.

(** handles incoming streams and closes them if the given peer's relation
    should not allow any. *)
Definition handleInboundStream (stream : Stream) : M (option Protocol) :=
  let remotePeerID := RemotePeer (StreamConn stream) in
  s ← St.get;
  match streams s !! remotePeerID with
  | Some _ =>
      Trigger (InboundStreamCancelled stream StreamCancelReasonDuplicated);;
      closeUnwantedStream stream;;
      St.ret None
  | None =>
      ok ← managerCall remotePeerID
              (fun peer =>
                 if decide (Relation peer = PeerRelationUnknown)
                 then false else true);
      if negb ok then
        Trigger (InboundStreamCancelled stream
                   StreamCancelReasonInsufficientPeerRelation);;
        closeUnwantedStream stream;;
        St.ret None
      else
        proto ← registerProtocol remotePeerID stream;
        St.ret (Some proto)
  end.

(** opens up a stream to the given peer. *)
Definition openStream (peerID : PeerID) : M (error + Stream) :=
  Trigger (StreamNew peerID);;
  s ← St.get;
  match hostNewStream (host s) peerID with
  | inl err => St.ret (inl (ErrCreateStream peerID err))
  | inr stream =>
      Trigger (StreamRead stream);;
      St.ret (inr stream)
  end.

(** handles the automatic creation of a protocol instance if the given peer
    was connected outbound and its peer relation allows it. *)
Definition handleConnected (peer : Peer) (conn : Conn)
    : M (option Protocol * option error) :=
  s ← St.get;
  match streams s !! ID peer with
  | Some _ => St.ret (None, None)
  | None =>
      if decide (StatDirection conn <> DirOutbound) then St.ret (None, None)
      else
        r ← openStream (ID peer);
        match r with
        | inl err => St.ret (None, Some err)
        | inr stream =>
            proto ← registerProtocol (ID peer) stream;
            St.ret (Some proto, None)
        end
  end.

(** deregisters ongoing gossip protocol streams and closes them for the
    given peer. *)
Definition deregisterProtocol (peerID : PeerID) : M (bool * option error) :=
  s ← St.get;
  match streams s !! peerID with
  | None => St.ret (false, None)
  | Some proto =>
      St.modify (set_streams (delete peerID));;
      r ← streamReset (ProtoStream proto);
      match r with
      | Some err => St.ret (true, Some (ErrResetStream peerID err))
      | None => St.ret (true, None)
      end
  end.

(** closes the stream for the given peer and fires the appropriate events. *)
Definition closeStream (peerID : PeerID) : M unit :=
  s ← St.get;
  let proto : option Protocol := streams s !! peerID in
  '(reset, err) ← deregisterProtocol peerID;
  match err with
  | Some e => Trigger (Error e)
  | None =>
      if (reset : bool) then
        match proto with
        | Some p => Trigger (ProtocolTerminated p)
        | None => St.ret tt
        end
      else St.ret tt
  end.

(** handles updates to the relation to a given peer. *)
Definition handleRelationUpdated (peer : Peer) (oldRel : PeerRelation)
    : M (option Protocol * option error) :=
  let newRel := Relation peer in
  if decide (newRel = PeerRelationUnknown) then
    '(_, err) ← deregisterProtocol (ID peer);
    St.ret (None, err)
  else
    s ← St.get;
    match streams s !! ID peer with
    | Some _ => St.ret (None, None)
    | None =>
        r ← openStream (ID peer);
        match r with
        | inl err => St.ret (None, Some err)
        | inr stream =>
            proto ← registerProtocol (ID peer) stream;
            St.ret (Some proto, None)
        end
    end.

(** calls the given ProtocolForEachFunc on each protocol, until it returns
    false. Go leaves the iteration order of a map open; the order of
    [map_to_list] stands for one of them. *)
Fixpoint forEachList (f : Protocol -> bool) (ps : list Protocol) : M unit :=
  match ps with
  | [] => St.ret tt
  | p :: ps' =>
      Trigger (ForEachCall p);;
      if f p then forEachList f ps' else St.ret tt
  end.

Definition forEach (f : Protocol -> bool) : M unit :=
  s ← St.get;
  forEachList f (snd <$> map_to_list (streams s)).

(** returns the protocol for the given peer or nil *)
Definition proto (peerID : PeerID) : M (option Protocol) :=
  s ← St.get;
  St.ret (streams s !! peerID).

(** The messages of the event loop's channels. *)
Inductive Msg : Type :=
  | shutdownSignal
  | inboundStream (stream : Stream)
  | connected (peer : Peer) (conn : Conn)
  | disconnected (peer : Peer)
  | streamClosed (peerID : PeerID) (stream : Stream)
  | relationUpdated (peer : Peer) (oldRelation : PeerRelation)
  | streamReq (peerID : PeerID)
  | forEachReq (f : Protocol -> bool).

(** One iteration of the select of eventLoop, for a message other than
    the shutdown signal. *)
Definition handle (m : Msg) : M unit :=
  match m with
  | shutdownSignal => St.ret tt
  | inboundStream stream =>
      r ← handleInboundStream stream;
      match r with
      | Some p => Trigger (ProtocolStarted p)
      | None => St.ret tt
      end
  | connected peer conn =>
      '(p, err) ← handleConnected peer conn;
      match err with
      | Some e => Trigger (Error e)
      | None =>
          match p with
          | Some p => Trigger (ProtocolStarted p)
          | None => St.ret tt
          end
      end
  | disconnected peer => closeStream (ID peer)
  | streamClosed peerID _ => closeStream peerID
  | relationUpdated peer oldRel =>
      '(p, err) ← handleRelationUpdated peer oldRel;
      match err with
      | Some e => Trigger (Error e)
      | None =>
          match p with
          | Some p => Trigger (ProtocolStarted p)
          | None => St.ret tt
          end
      end
  | streamReq peerID =>
      p ← proto peerID;
      Trigger (ReplyProtocol p)
  | forEachReq f =>
      forEach f;;
      Trigger ReplyForEach
  end.

(** runs the Service's event loop over the messages in their order of
    arrival; the shutdown signal ends it. *)
Fixpoint eventLoop (msgs : list Msg) : M unit :=
  match msgs with
  | [] => St.ret tt
  | shutdownSignal :: _ => St.ret tt
  | m :: rest => handle m;; eventLoop rest
  end.

(** How often ProtocolTerminated was fired for a session in a trace. *)
Definition terminatedCount (p : Protocol) (t : list Effect) : nat :=
  count_occ Effect_eq_dec t (ProtocolTerminated p).

Definition isProtocolTerminated (e : Effect) : bool :=
  match e with ProtocolTerminated _ => true | _ => false end.

(** The ProtocolTerminated events of a trace, for any session. *)
Definition terminations (t : list Effect) : list Effect :=
  List.filter isProtocolTerminated t.


(** The state after cancelling an inbound stream for [reason]. *)
Definition cancelled (stream : Stream) (reason : StreamCancelReason)
    (s : Service) : Service :=
  mkService (streams s) (manager s) (optsSendQueueSize s) (host s)
    (trace s ++ [InboundStreamCancelled stream reason;
                 ConnClose (StreamConn stream);
                 StreamReset stream]).

(** *** Sample peers, streams and services *)

Definition peerP : PeerID := "P"%string.
Definition connOutbound : Conn := mkConn 1 peerP DirOutbound.
Definition connInbound : Conn := mkConn 2 peerP DirInbound.
Definition streamOut : Stream := mkStream 1 connOutbound.
Definition streamIn : Stream := mkStream 2 connInbound.
Definition sessionP : Protocol := NewProtocol peerP streamOut defaultSendQueueSize.

(** A transport on which every reset succeeds, and one on which it fails. *)
Definition transportOk : Transport :=
  mkTransport (fun _ => inr streamOut) (fun _ => None).
Definition resetFailure : error := TransportError "stream reset".
Definition transportResetFails : Transport :=
  mkTransport (fun _ => inr streamOut) (fun _ => Some resetFailure).

(** A fresh service that knows P, and services with a running session
    for P. *)
Definition serviceFresh : Service :=
  mkService ∅ {[ peerP := mkPeer peerP PeerRelationKnown ]}
    defaultSendQueueSize transportOk [].
Definition serviceWithSession : Service :=
  mkService {[ peerP := sessionP ]} {[ peerP := mkPeer peerP PeerRelationKnown ]}
    defaultSendQueueSize transportOk [].
Definition serviceResetFails : Service :=
  mkService {[ peerP := sessionP ]} {[ peerP := mkPeer peerP PeerRelationKnown ]}
    defaultSendQueueSize transportResetFails [].

(** *** Options and construction *)

(** ServiceOptions. StreamConnectTimeout is a time.Duration, that is a count
    of nanoseconds; the logger is a pointer (nil when there is none). *)
Record ServiceOptions : Type := mkServiceOptions {
  SendQueueSize : Z;
  StreamConnectTimeout : Z;
  Logger : option string
}.

(** ServiceOption is a function setting a ServiceOptions option. *)
Definition ServiceOption : Type := ServiceOptions -> ServiceOptions.

(** applies the given ServiceOption. *)
Definition ServiceOptions_apply (so : ServiceOptions) (opts : list ServiceOption)
    : ServiceOptions :=
  fold_left (fun so opt => opt so) opts so.

(** WithSendQueueSize defines the size of send queues on ongoing gossip
    protocol streams. *)
Definition WithSendQueueSize (size : Z) : ServiceOption :=
  fun opts => mkServiceOptions size (StreamConnectTimeout opts) (Logger opts).

(** WithStreamConnectTimeout defines the timeout for creating a gossip
    protocol stream. *)
Definition WithStreamConnectTimeout (dur : Z) : ServiceOption :=
  fun opts => mkServiceOptions (SendQueueSize opts) dur (Logger opts).

(** WithLogger enables logging within the Service. *)
Definition WithLogger (logger : string) : ServiceOption :=
  fun opts => mkServiceOptions (SendQueueSize opts) (StreamConnectTimeout opts)
                (Some logger).

Definition Second : Z := 1000000000.
Definition defaultStreamConnectTimeout : Z := 4 * Second.

(** the default options applied to the Service. *)
Definition defaultServiceOptions : list ServiceOption :=
  [WithSendQueueSize defaultSendQueueSize;
   WithStreamConnectTimeout defaultStreamConnectTimeout].

(** The options NewService ends up with: the zero value, then the defaults,
    then the caller's options. *)
Definition NewServiceOptions (opts : list ServiceOption) : ServiceOptions :=
  ServiceOptions_apply
    (ServiceOptions_apply (mkServiceOptions 0 0 None) defaultServiceOptions)
    opts.

(** NewService creates a new Service: no streams yet. Of the options the
    embedded Service keeps the send queue size, which is all that the event
    loop reads. *)
Definition NewService (h : Transport) (m : gmap PeerID Peer)
    (opts : list ServiceOption) : Service :=
  mkService ∅ m (SendQueueSize (NewServiceOptions opts)) h [].

(** *** Iterating with a closure that keeps state *)

(** forEach with a ProtocolForEachFunc that updates captured variables,
    here the accumulator. *)
Fixpoint forEachAcc {A} (f : Protocol -> A -> bool * A) (ps : list Protocol)
    (a : A) : A :=
  match ps with
  | [] => a
  | p :: ps' =>
      let '(continue, a') := f p a in
      if continue then forEachAcc f ps' a' else a'
  end.

(** The sessions in the order in which forEach walks them. *)
Definition sessions (s : Service) : list Protocol :=
  snd <$> map_to_list (streams s).

(** SynchronizedCount returns the count of streams with peers which appear
    to be synchronized given their latest Heartbeat message. Protocol.IsSynced
    is outside the sources and is passed in. *)
Definition SynchronizedCount (IsSynced : Protocol -> Z -> bool)
    (latestMilestoneIndex : Z) (s : Service) : Z :=
  forEachAcc
    (fun proto count =>
       (true, if IsSynced proto latestMilestoneIndex then count + 1 else count))
    (sessions s) 0.

(** The sessions on which forEach calls its function: up to and including
    the first one for which it returns false. *)
Fixpoint visited (f : Protocol -> bool) (ps : list Protocol) : list Protocol :=
  match ps with
  | [] => []
  | p :: ps' => p :: (if f p then visited f ps' else [])
  end.

(** *** Predicates on services and steps *)

(** Every session is registered under the peer it is for, with the
    configured send queue size. *)
Definition sessionsKeyed (s : Service) : Prop :=
  forall p x, streams s !! p = Some x ->
    ProtoPeerID x = p /\ ProtoSendQueueSize x = optsSendQueueSize s.

Definition isSessionEvent (e : Effect) : bool :=
  match e with
  | ProtocolStarted _ | ProtocolTerminated _ => true
  | _ => false
  end.

(** What one iteration of the event loop can do to [streams], with the
    events [d] it adds: nothing, remove one session, or register one session
    for a peer that had none. *)
Inductive Step (s s' : Service) (d : list Effect) : Prop :=
  | StepSame :
      streams s' = streams s ->
      Forall (fun e => isSessionEvent e = false) d ->
      Step s s' d
  | StepRemoved (p : PeerID) (x : Protocol) :
      streams s !! p = Some x ->
      streams s' = delete p (streams s) ->
      Forall (fun e => (forall y, e <> ProtocolStarted y) /\
                       (forall y, e = ProtocolTerminated y -> y = x)) d ->
      Step s s' d
  | StepRegistered (p : PeerID) (st : Stream) (pre : list Effect) :
      streams s !! p = None ->
      streams s' = <[p := NewProtocol p st (optsSendQueueSize s)]> (streams s) ->
      d = pre ++ [ProtocolStarted (NewProtocol p st (optsSendQueueSize s))] ->
      Forall (fun e => isSessionEvent e = false) pre ->
      Step s s' d.

(** The state after an outbound stream was opened and registered. *)
Definition opened (peerID : PeerID) (st : Stream) (s : Service) : Service :=
  let x := NewProtocol peerID st (optsSendQueueSize s) in
  mkService (<[peerID := x]> (streams s)) (manager s) (optsSendQueueSize s)
    (host s)
    (trace s ++ [StreamNew peerID; StreamRead st; ProtocolStarted x]).

(** The state after opening an outbound stream failed. *)
Definition openFailed (peerID : PeerID) (err : error) (s : Service) : Service :=
  mkService (streams s) (manager s) (optsSendQueueSize s) (host s)
    (trace s ++ [StreamNew peerID; Error (ErrCreateStream peerID err)]).

(** The state after an inbound stream was accepted. *)
Definition accepted (stream : Stream) (s : Service) : Service :=
  let remote := RemotePeer (StreamConn stream) in
  let x := NewProtocol remote stream (optsSendQueueSize s) in
  mkService (<[remote := x]> (streams s)) (manager s) (optsSendQueueSize s)
    (host s) (trace s ++ [ProtocolStarted x]).

(** A transport on which no stream can be opened. *)
Definition transportDown : Transport :=
  mkTransport (fun _ => inl (TransportError "dial failed")) (fun _ => None).
Definition serviceDown : Service :=
  mkService ∅ {[ peerP := mkPeer peerP PeerRelationKnown ]}
    defaultSendQueueSize transportDown [].

End Gossip.

(** ** The pruning engine *)

Module Pruning.

(** hornet.Hash: a byte string; the code converts it to a string wherever
    it is a map key. *)
Definition Hash : Type := string.

(** Modelled from the spec: the declaration of milestone.Index is not among
    the sources; the spec calls it a non-negative integer. It is embedded as
    an unsigned 32-bit word: a Z in [0, 2^32) whose sums and differences
    wrap around. *)
Definition IndexBits : Z := 32.
Definition wrap (z : Z) : Z := z mod 2 ^ IndexBits.
Definition add (a b : Z) : Z := wrap (a + b).
Definition sub (a b : Z) : Z := wrap (a - b).
Definition MaxIndex : Z := 2 ^ IndexBits - 1.

(** AdditionalPruningThreshold is needed, because the messages in the
    getMilestoneParents call in getSolidEntryPoints can reference older
    messages as well *)
Definition AdditionalPruningThreshold : Z := 50.

(** Modelled from the spec: tangle.SnapshotInfo, of which pruning reads and
    writes these three indexes. *)
Record SnapshotInfo : Type := mkSnapshotInfo {
  SnapshotIndex : Z;
  PruningIndex : Z;
  EntryPointIndex : Z
}.

(** Modelled from the spec: a stored message with its metadata. The store is
    content-addressed, so GetMessageID() of a message loaded under a key is
    that key. [IsConfirmed] is GetMetadata().IsConfirmed();
    [MaybeMilestoneTx] is the answer of tangle.IsMaybeMilestoneTx. *)
Record Message : Type := mkMessage {
  Parent1MessageID : Hash;
  Parent2MessageID : Hash;
  IsConfirmed : bool;
  MaybeMilestoneTx : bool
}.

(** A bundle of a message: bndl.GetMessage().IsMilestone(). *)
Record Bundle : Type := mkBundle { IsMilestone : bool }.

(** A milestone record: cachedMs.GetMilestone().MessageID. *)
Record Milestone : Type := mkMilestone { MessageID : Hash }.

(** Modelled from the spec: the message store of package tangle, reduced to
    what pruning touches (section 6 of the spec). [children] is the children
    index, a set of (parent, child) references; [solidEntryPoints] is the
    in-memory set and [storedSolidEntryPoints] what StoreSolidEntryPoints
    last persisted; [snapshotInfo] is what SetSnapshotInfo last persisted. *)
Record Tangle : Type := mkTangle {
  messages : gmap Hash Message;
  children : gset (Hash * Hash);
  unconfirmed : gmap Z (list Hash);
  bundles : gmap Hash (list Bundle);
  milestones : gmap Z Milestone;
  ledgerDiffs : gset Z;
  solidEntryPoints : gmap Hash Z;
  storedSolidEntryPoints : gmap Hash Z;
  snapshotInfo : option SnapshotInfo
}.

Inductive error : Type :=
  | ErrNotEnoughHistory
  | ErrNoPruningNeeded
  | ErrPruningAborted
  | ErrMessageNotFound
  | ErrOther (msg : string)
  | Wrapf (cause : error) (a b : Z).

(** errors.Cause: the error at the bottom of a chain of wrappers. *)
Fixpoint Cause (e : error) : error :=
  match e with
  | Wrapf c _ _ => Cause c
  | _ => e
  end.

(** The calls into the store that change it, the flag, and the event of
    the tangle plugin, in the order in which pruning makes them. *)
Inductive Effect : Type :=
  | SetIsPruning (value : bool)
  | ResetSolidEntryPoints
  | SolidEntryPointsAdd (messageID : Hash) (index : Z)
  | StoreSolidEntryPoints
  | SetSnapshotInfo (info : SnapshotInfo)
  | DeleteUnconfirmedMessages (index : Z)
  | DeleteChild (parent child : Hash)
  | DeleteChildren (messageID : Hash)
  | DeleteMessage (messageID : Hash)
  | DeleteLedgerDiffForMilestone (index : Z)
  | DeleteMilestone (index : Z)
  | PruningMilestoneIndexChanged (index : Z)
  | RunGarbageCollection.

#[global] Instance SnapshotInfo_eq_dec : EqDecision SnapshotInfo.
Proof. solve_decision. Defined.
#[global] Instance error_eq_dec : EqDecision error.
Proof. solve_decision. Defined.
#[global] Instance Effect_eq_dec : EqDecision Effect.
Proof. solve_decision. Defined.

(** The state pruning runs on: the store, the isPruning flag and the
    trace. The locks (statusLock, the solid entry point lock) and the
    reference counts of cached objects have no counterpart in a sequential
    embedding. *)
Record World : Type := mkWorld {
  tangle : Tangle;
  isPruning : bool;
  trace : list Effect
}.

(** What the rest of the snapshot plugin and package dag contribute:
    [SolidEntryPointCheckThresholdPast] is configured;
    [getSolidEntryPoints] fails or yields the new entry points;
    [TraverseParents t start] is the walk that pruneDatabase asks for
    (condition always true, the consumer collecting every message ID): it
    fails or yields the collected IDs. Both only read the store. *)
Record Env : Type := mkEnv {
  SolidEntryPointCheckThresholdPast : Z;
  getSolidEntryPoints : Tangle -> Z -> error + list (Hash * Z);
  TraverseParents : Tangle -> Hash -> error + list Hash
}.

Definition set_tangle (f : Tangle -> Tangle) (w : World) : World :=
  mkWorld (f (tangle w)) (isPruning w) (trace w).

Definition emit (e : Effect) (w : World) : World :=
  mkWorld (tangle w) (isPruning w) (trace w ++ [e]).

(** *** The store's operations on its state *)

(** Modelled from the spec: tangle.DeleteChild(parentID, childID) removes
    the reference to the child from the parent's child index. *)
Definition tDeleteChild (parent child : Hash) (t : Tangle) : Tangle :=
  mkTangle (messages t) (children t ∖ {[ (parent, child) ]}) (unconfirmed t)
    (bundles t) (milestones t) (ledgerDiffs t) (solidEntryPoints t)
    (storedSolidEntryPoints t) (snapshotInfo t).

(** Modelled from the spec: tangle.DeleteChildren(id) removes the
    children-index entries of the message. *)
Definition tDeleteChildren (messageID : Hash) (t : Tangle) : Tangle :=
  mkTangle (messages t)
    (filter (fun pc : Hash * Hash => pc.1 <> messageID) (children t))
    (unconfirmed t) (bundles t) (milestones t) (ledgerDiffs t)
    (solidEntryPoints t) (storedSolidEntryPoints t) (snapshotInfo t).

(** Modelled from the spec: tangle.DeleteMessage(id) deletes the message
    and its metadata. *)
Definition tDeleteMessage (messageID : Hash) (t : Tangle) : Tangle :=
  mkTangle (delete messageID (messages t)) (children t) (unconfirmed t)
    (bundles t) (milestones t) (ledgerDiffs t) (solidEntryPoints t)
    (storedSolidEntryPoints t) (snapshotInfo t).

(** Modelled from the spec: tangle.DeleteUnconfirmedMessages(idx) deletes
    the unconfirmed-index entries of the milestone index. *)
Definition tDeleteUnconfirmedMessages (index : Z) (t : Tangle) : Tangle :=
  mkTangle (messages t) (children t) (delete index (unconfirmed t))
    (bundles t) (milestones t) (ledgerDiffs t) (solidEntryPoints t)
    (storedSolidEntryPoints t) (snapshotInfo t).

(** Modelled from the spec: tangle.DeleteMilestone(idx) deletes the
    milestone record. *)
Definition tDeleteMilestone (index : Z) (t : Tangle) : Tangle :=
  mkTangle (messages t) (children t) (unconfirmed t) (bundles t)
    (delete index (milestones t)) (ledgerDiffs t) (solidEntryPoints t)
    (storedSolidEntryPoints t) (snapshotInfo t).

(** Modelled from the spec: tangle.DeleteLedgerDiffForMilestone(idx)
    deletes the ledger diff; its error is only logged by pruneMilestone. *)
Definition tDeleteLedgerDiffForMilestone (index : Z) (t : Tangle) : Tangle :=
  mkTangle (messages t) (children t) (unconfirmed t) (bundles t)
    (milestones t) (ledgerDiffs t ∖ {[ index ]}) (solidEntryPoints t)
    (storedSolidEntryPoints t) (snapshotInfo t).

(** Modelled from the spec: tangle.ResetSolidEntryPoints() empties the
    in-memory set of solid entry points. *)
Definition tResetSolidEntryPoints (t : Tangle) : Tangle :=
  mkTangle (messages t) (children t) (unconfirmed t) (bundles t)
    (milestones t) (ledgerDiffs t) ∅ (storedSolidEntryPoints t)
    (snapshotInfo t).

(** Modelled from the spec: tangle.SolidEntryPointsAdd(id, idx). *)
Definition tSolidEntryPointsAdd (messageID : Hash) (index : Z) (t : Tangle)
    : Tangle :=
  mkTangle (messages t) (children t) (unconfirmed t) (bundles t)
    (milestones t) (ledgerDiffs t) (<[messageID := index]> (solidEntryPoints t))
    (storedSolidEntryPoints t) (snapshotInfo t).

(** Modelled from the spec: tangle.StoreSolidEntryPoints() persists the
    in-memory set. *)
Definition tStoreSolidEntryPoints (t : Tangle) : Tangle :=
  mkTangle (messages t) (children t) (unconfirmed t) (bundles t)
    (milestones t) (ledgerDiffs t) (solidEntryPoints t) (solidEntryPoints t)
    (snapshotInfo t).

(** Modelled from the spec: tangle.SetSnapshotInfo(info) persists the
    record. *)
Definition tSetSnapshotInfo (info : SnapshotInfo) (t : Tangle) : Tangle :=
  mkTangle (messages t) (children t) (unconfirmed t) (bundles t)
    (milestones t) (ledgerDiffs t) (solidEntryPoints t)
    (storedSolidEntryPoints t) (Some info).

Abbreviation M := (St.M World).

(** A call into the store: it changes the store and is recorded. *)
Definition call (e : Effect) (f : Tangle -> Tangle) : M unit :=
  St.modify (fun w => emit e (set_tangle f w)).

Definition deleteChild (parent child : Hash) : M unit :=
  call (DeleteChild parent child) (tDeleteChild parent child).
Definition deleteChildren (messageID : Hash) : M unit :=
  call (DeleteChildren messageID) (tDeleteChildren messageID).
Definition deleteMessage (messageID : Hash) : M unit :=
  call (DeleteMessage messageID) (tDeleteMessage messageID).
Definition deleteUnconfirmedMessages (index : Z) : M unit :=
  call (DeleteUnconfirmedMessages index) (tDeleteUnconfirmedMessages index).
Definition deleteMilestone (index : Z) : M unit :=
  call (DeleteMilestone index) (tDeleteMilestone index).
Definition deleteLedgerDiffForMilestone (index : Z) : M unit :=
  call (DeleteLedgerDiffForMilestone index) (tDeleteLedgerDiffForMilestone index).
Definition resetSolidEntryPoints : M unit :=
  call ResetSolidEntryPoints tResetSolidEntryPoints.
Definition solidEntryPointsAdd (messageID : Hash) (index : Z) : M unit :=
  call (SolidEntryPointsAdd messageID index) (tSolidEntryPointsAdd messageID index).
Definition storeSolidEntryPoints : M unit :=
  call StoreSolidEntryPoints tStoreSolidEntryPoints.
Definition setSnapshotInfo (info : SnapshotInfo) : M unit :=
  call (SetSnapshotInfo info) (tSetSnapshotInfo info).
Definition runGarbageCollection : M unit :=
  call RunGarbageCollection id.
Definition triggerPruningMilestoneIndexChanged (index : Z) : M unit :=
  call (PruningMilestoneIndexChanged index) id.

Definition setIsPruning (value : bool) : M unit :=
  St.modify (fun w => mkWorld (tangle w) value (trace w ++ [SetIsPruning value])).

(** Modelled from the spec: tangle.GetUnconfirmedMessageIDs(idx, lock) lists
    the unconfirmed message IDs the store associates with the index. *)
Definition GetUnconfirmedMessageIDs (index : Z) (t : Tangle) : list Hash :=
  default [] (unconfirmed t !! index).

(** *** pruning.go *)

(** pruneMessages prunes the children, bundles, bundle txs, addresses, tags
    and transaction metadata from the database. The argument lists the keys
    of the Go map in the order in which the range loop visits them. *)
Fixpoint pruneMessages (messageIDsToDelete : list Hash) : M nat :=
  match messageIDsToDelete with
  | [] => mret 0%nat
  | messageIDToDelete :: rest =>
      w ← St.get;
      match messages (tangle w) !! messageIDToDelete with
      | None => mret tt
      | Some msg =>
          deleteChild (Parent1MessageID msg) messageIDToDelete;;
          deleteChild (Parent2MessageID msg) messageIDToDelete;;
          deleteChildren messageIDToDelete;;
          deleteMessage messageIDToDelete
      end;;
      n ← pruneMessages rest;
      mret (S n)
  end.

(** Whether one of the bundles is a milestone bundle: the inner loop of
    pruneUnconfirmedTransactions. *)
Definition anyMilestoneBundle (bs : list Bundle) : bool :=
  existsb IsMilestone bs.

(** The first loop of pruneUnconfirmedTransactions, which only reads the
    store: [txsToCheckMap] are the keys collected so far, in the order of
    their insertion. *)
Fixpoint collectUnconfirmed (t : Tangle) (txHashes : list Hash)
    (txsToCheckMap : list Hash) : list Hash :=
  match txHashes with
  | [] => txsToCheckMap
  | txHash :: rest =>
      if decide (txHash ∈ txsToCheckMap) then
        collectUnconfirmed t rest txsToCheckMap
      else
        match messages t !! txHash with
        | None =>
            (* transaction was already deleted or marked for deletion *)
            collectUnconfirmed t rest txsToCheckMap
        | Some cachedMsg =>
            if IsConfirmed cachedMsg then
              (* transaction was already confirmed *)
              collectUnconfirmed t rest txsToCheckMap
            else if MaybeMilestoneTx cachedMsg
                    && match bundles t !! txHash with
                       | Some bndls =>
                           (0 <? Z.of_nat (length bndls))
                           && anyMilestoneBundle bndls
                       | None => false
                       end
            then
              (* Do not prune unconfirmed tx that are part of a milestone *)
              collectUnconfirmed t rest txsToCheckMap
            else
              collectUnconfirmed t rest (txsToCheckMap ++ [txHash])
        end
  end.

(** pruneUnconfirmedTransactions prunes all unconfirmed tx from the database
    for the given milestone. pruneMessages walks the collected keys in the
    order of their insertion, one of the orders the Go range loop can
    take. *)
Definition pruneUnconfirmedTransactions (targetIndex : Z) : M (nat * nat) :=
  w ← St.get;
  let txsToCheckMap :=
    collectUnconfirmed (tangle w)
      (GetUnconfirmedMessageIDs targetIndex (tangle w)) [] in
  txCountDeleted ← pruneMessages txsToCheckMap;
  deleteUnconfirmedMessages targetIndex;;
  mret (txCountDeleted, length txsToCheckMap).

(** pruneMilestone prunes the milestone metadata and the ledger diffs from
    the database for the given milestone *)
Definition pruneMilestone (milestoneIndex : Z) : M unit :=
  deleteLedgerDiffForMilestone milestoneIndex;;
  deleteMilestone milestoneIndex.

Definition withEntryPointIndex (i : Z) (info : SnapshotInfo) : SnapshotInfo :=
  mkSnapshotInfo (SnapshotIndex info) (PruningIndex info) i.

Definition withPruningIndex (i : Z) (info : SnapshotInfo) : SnapshotInfo :=
  mkSnapshotInfo (SnapshotIndex info) i (EntryPointIndex info).

(** How the milestone loop of pruneDatabase ends. *)
Inductive LoopResult : Type :=
  | LoopDone
  | LoopAborted
  | LoopOutOfFuel.

(** A poll of the abort channel (select with a default case): the list
    holds the answers the channel gives to the polls to come, [true] when it
    is ready; an exhausted list means that it is not ready. *)
Definition abortFired (abortSignal : list bool) : bool :=
  match abortSignal with
  | b :: _ => b
  | [] => false
  end.

(** Iterate through all milestones that have to be pruned: the for loop of
    pruneDatabase, from [milestoneIndex] on. With a target of 2^32-1 the
    increment wraps and the Go loop does not end, so the loop is given a
    number of iterations it may make. *)
Fixpoint pruneMilestones (env : Env) (fuel : nat) (milestoneIndex targetIndex : Z)
    (abortSignal : list bool) (snapshotInfo : SnapshotInfo) : M LoopResult :=
  if milestoneIndex <=? targetIndex then
    match fuel with
    | O => mret LoopOutOfFuel
    | S fuel' =>
        if abortFired abortSignal then
          (* Stop pruning the next milestone *)
          mret LoopAborted
        else
          let next := pruneMilestones env fuel' (add milestoneIndex 1)
                        targetIndex (tail abortSignal) in
          _ ← pruneUnconfirmedTransactions milestoneIndex;
          w ← St.get;
          match milestones (tangle w) !! milestoneIndex with
          | None =>
              (* Milestone not found, pruning impossible *)
              next snapshotInfo
          | Some cachedMs =>
              match TraverseParents env (tangle w) (MessageID cachedMs) with
              | inl err => next snapshotInfo
              | inr msgsToCheckMap =>
                  _ ← pruneMessages msgsToCheckMap;
                  pruneMilestone milestoneIndex;;
                  let snapshotInfo' :=
                    withPruningIndex milestoneIndex snapshotInfo in
                  setSnapshotInfo snapshotInfo';;
                  triggerPruningMilestoneIndexChanged milestoneIndex;;
                  next snapshotInfo'
              end
          end
    end
  else mret LoopDone.

Fixpoint addSolidEntryPoints (l : list (Hash * Z)) : M unit :=
  match l with
  | [] => mret tt
  | (solidEntryPoint, index) :: rest =>
      solidEntryPointsAdd solidEntryPoint index;;
      addSolidEntryPoints rest
  end.

(** How a call of pruneDatabase ends. *)
Inductive Outcome : Type :=
  | Returned (err : option error)
  | Panicked (msg : string)
  | OutOfFuel.

Definition pruneDatabase (env : Env) (fuel : nat) (targetIndex : Z)
    (abortSignal : list bool) : M Outcome :=
  w ← St.get;
  match snapshotInfo (tangle w) with
  | None => mret (Panicked "No snapshotInfo found!")
  | Some snapshotInfo =>
      let minimum :=
        add (add (SolidEntryPointCheckThresholdPast env)
                 AdditionalPruningThreshold) 1 in
      if SnapshotIndex snapshotInfo <? minimum then
        (* Not enough history *)
        mret (Returned (Some (Wrapf ErrNotEnoughHistory minimum targetIndex)))
      else
        let targetIndexMax :=
          sub (sub (sub (SnapshotIndex snapshotInfo)
                        (SolidEntryPointCheckThresholdPast env))
                   AdditionalPruningThreshold) 1 in
        let targetIndex :=
          if targetIndex >? targetIndexMax then targetIndexMax
          else targetIndex in
        if PruningIndex snapshotInfo >=? targetIndex then
          (* no pruning needed *)
          mret (Returned (Some (Wrapf ErrNoPruningNeeded
                                  (PruningIndex snapshotInfo) targetIndex)))
        else
          let minimum' :=
            add (add (EntryPointIndex snapshotInfo)
                     AdditionalPruningThreshold) 1 in
          if minimum' >? targetIndex then
            (* we prune in "AdditionalPruningThreshold" steps to recalculate
               the solidEntryPoints *)
            mret (Returned (Some (Wrapf ErrNotEnoughHistory minimum' targetIndex)))
          else
            setIsPruning true;;
            r ← match getSolidEntryPoints env (tangle w) targetIndex with
                | inl err => mret (Returned (Some err))
                | inr newSolidEntryPoints =>
                    resetSolidEntryPoints;;
                    addSolidEntryPoints newSolidEntryPoints;;
                    storeSolidEntryPoints;;
                    (* we have to set the new solid entry point index. this
                       way we can cleanly prune even if the pruning was
                       aborted last time *)
                    let snapshotInfo :=
                      withEntryPointIndex targetIndex snapshotInfo in
                    setSnapshotInfo snapshotInfo;;
                    (* unconfirmed txs have to be pruned for PruningIndex as
                       well *)
                    _ ← pruneUnconfirmedTransactions (PruningIndex snapshotInfo);
                    l ← pruneMilestones env fuel
                          (add (PruningIndex snapshotInfo) 1) targetIndex
                          abortSignal snapshotInfo;
                    match l with
                    | LoopAborted => mret (Returned (Some ErrPruningAborted))
                    | LoopOutOfFuel => mret OutOfFuel
                    | LoopDone =>
                        runGarbageCollection;;
                        mret (Returned None)
                    end
                end;
            (* defer setIsPruning(false): runs when the function returns *)
            match r with
            | OutOfFuel => mret OutOfFuel
            | _ => setIsPruning false;; mret r
            end
  end.

(** The target index after the clamp of pruneDatabase. *)
Definition clampedTarget (env : Env) (info : SnapshotInfo) (targetIndex : Z) : Z :=
  let targetIndexMax :=
    sub (sub (sub (SnapshotIndex info) (SolidEntryPointCheckThresholdPast env))
             AdditionalPruningThreshold) 1 in
  if targetIndex >? targetIndexMax then targetIndexMax else targetIndex.

(** *** Reading a trace *)

(** The calls that delete data of the cone: unconfirmed messages, cone
    messages with their child references, milestones and ledger diffs. *)
Definition isDeletion (e : Effect) : bool :=
  match e with
  | DeleteUnconfirmedMessages _ | DeleteChild _ _ | DeleteChildren _
  | DeleteMessage _ | DeleteLedgerDiffForMilestone _ | DeleteMilestone _ => true
  | _ => false
  end.

(** The SnapshotInfo that is persisted after the calls of a trace, when
    [init] was persisted before them. *)
Definition replayInfo (d : list Effect) (init : option SnapshotInfo)
    : option SnapshotInfo :=
  fold_left (fun acc e => match e with SetSnapshotInfo i => Some i | _ => acc end)
            d init.

(** The index of the last milestone whose iteration ran to its end, where
    PruningMilestoneIndexChanged is fired; [start] when there is none. *)
Definition lastCompleted (d : list Effect) (start : Z) : Z :=
  fold_left (fun acc e => match e with PruningMilestoneIndexChanged i => i | _ => acc end)
            d start.

(** The milestone index a call works on. *)
Definition indexOf (e : Effect) : option Z :=
  match e with
  | DeleteUnconfirmedMessages i | DeleteLedgerDiffForMilestone i
  | DeleteMilestone i | PruningMilestoneIndexChanged i => Some i
  | SetSnapshotInfo info => Some (PruningIndex info)
  | _ => None
  end.

(** The end of an iteration whose milestone was found and traversed. *)
Definition completeMilestone (milestoneIndex : Z) (snapshotInfo' : SnapshotInfo)
    (msgsToCheckMap : list Hash) (w : World) : World :=
  St.exec (triggerPruningMilestoneIndexChanged milestoneIndex)
    (St.exec (setSnapshotInfo snapshotInfo')
       (St.exec (pruneMilestone milestoneIndex)
          (St.exec (pruneMessages msgsToCheckMap) w))).

(** Phase 1 and 2 of pruneDatabase: the new solid entry points replace the
    old ones and are stored, EntryPointIndex is persisted, and the
    unconfirmed messages of the old PruningIndex are pruned. *)
Definition phase1 (T : Z) (info : SnapshotInfo) (news : list (Hash * Z))
    (w : World) : World :=
  St.exec (pruneUnconfirmedTransactions (PruningIndex info))
    (St.exec (setSnapshotInfo (withEntryPointIndex T info))
       (St.exec storeSolidEntryPoints
          (St.exec (addSolidEntryPoints news)
             (St.exec resetSolidEntryPoints
                (St.exec (setIsPruning true) w))))).

(** The calls of phase 1 up to the persisting of EntryPointIndex. *)
Definition phase1Calls (T : Z) (info : SnapshotInfo) (news : list (Hash * Z))
    : list Effect :=
  [SetIsPruning true; ResetSolidEntryPoints]
  ++ map (fun p : Hash * Z => SolidEntryPointsAdd p.1 p.2) news
  ++ [StoreSolidEntryPoints; SetSnapshotInfo (withEntryPointIndex T info)].

(** What pruneDatabase does once the milestone loop has ended. *)
Definition finish (r : LoopResult * World) : Outcome * World :=
  match r.1 with
  | LoopAborted =>
      (Returned (Some ErrPruningAborted), St.exec (setIsPruning false) r.2)
  | LoopOutOfFuel => (OutOfFuel, r.2)
  | LoopDone =>
      (Returned None,
       St.exec (setIsPruning false) (St.exec runGarbageCollection r.2))
  end.

(** *** Predicates on the calls of a trace *)

(** The events by which pruneMessages deletes the messages [ids]. *)
Definition deletesOf (ids : list Hash) (e : Effect) : Prop :=
  match e with
  | DeleteChild _ child => child ∈ ids
  | DeleteChildren messageID => messageID ∈ ids
  | DeleteMessage messageID => messageID ∈ ids
  | _ => False
  end.

(** The events of pruneUnconfirmedTransactions for [index]. *)
Definition unconfirmedEvent (index : Z) (ids : list Hash) (e : Effect) : Prop :=
  match e with
  | DeleteUnconfirmedMessages i => i = index
  | _ => deletesOf ids e
  end.

(** The events of the milestone loop over a store whose milestones are
    [ms], run with the entry point index [epi]: deletions, and for the
    milestones that are stored the persisting of the advanced PruningIndex
    and the event of the tangle plugin. *)
Definition loopEvent (ms : gmap Z Milestone) (epi : Z) (e : Effect) : Prop :=
  match e with
  | SetSnapshotInfo info =>
      EntryPointIndex info = epi /\ is_Some (ms !! PruningIndex info)
  | PruningMilestoneIndexChanged i => is_Some (ms !! i)
  | _ => isDeletion e = true
  end.

(** The guards of pruneDatabase, on the persisted SnapshotInfo. *)
Definition guardsPass (env : Env) (info : SnapshotInfo) (targetIndex : Z) : Prop :=
  (SnapshotIndex info <?
     add (add (SolidEntryPointCheckThresholdPast env) AdditionalPruningThreshold) 1)
    = false /\
  (PruningIndex info >=? clampedTarget env info targetIndex) = false /\
  (add (add (EntryPointIndex info) AdditionalPruningThreshold) 1 >?
     clampedTarget env info targetIndex) = false.

(** The events of pruneUnconfirmedTransactions are deletions for its
    index. *)
Definition deletionAt (index : Z) (e : Effect) : Prop :=
  isDeletion e = true /\ forall i, indexOf e = Some i -> i = index.



(** *** Sample stores *)

(** Scenario S3 of the spec. *)
Definition envS3 : Env := mkEnv 50 (fun _ _ => inr []) (fun _ _ => inr []).
Definition worldS3 : World :=
  mkWorld (mkTangle ∅ ∅ ∅ ∅ ∅ ∅ ∅ ∅ (Some (mkSnapshotInfo 100 50 50))) false [].

(** A store snapshotted at 1000 and pruned up to 800. The milestones 802,
    803 and 851 are stored, 801 is not. "u1" and "mb" are listed as
    unconfirmed for 801; "mb" belongs to a milestone bundle. *)
Definition confirmedMsg (p1 p2 : Hash) : Message := mkMessage p1 p2 true true.
Definition sampleTangle : Tangle :=
  mkTangle
    {[ "m802" := confirmedMsg "g" "g"; "m803" := confirmedMsg "m802" "g";
       "m851" := confirmedMsg "m803" "m802";
       "u1" := mkMessage "m802" "g" false false;
       "mb" := mkMessage "m803" "u1" false true ]}%string
    {[ ("m802", "m803"); ("m802", "m851"); ("m803", "m851");
       ("m802", "u1"); ("m803", "mb"); ("u1", "mb") ]}%string
    {[ 801 := ["u1"; "mb"]%string ]}
    {[ "mb"%string := [mkBundle true] ]}
    {[ 802 := mkMilestone "m802"; 803 := mkMilestone "m803";
       851 := mkMilestone "m851" ]}
    {[ 802; 803; 851 ]}
    ∅ ∅ (Some (mkSnapshotInfo 1000 800 800)).
Definition sampleWorld : World := mkWorld sampleTangle false [].

(** The new entry points of the sample are the milestone message of 851;
    its walk yields the start message alone. *)
Definition sampleEnv : Env :=
  mkEnv 50 (fun _ _ => inr [("m851"%string, 851)]) (fun _ start => inr [start]).

(** *** Predicates on stores *)

(** Whether the bundles of a message hold a milestone bundle. *)
Definition hasMilestoneBundle (t : Tangle) (messageID : Hash) : bool :=
  match bundles t !! messageID with
  | Some bndls => (0 <? Z.of_nat (length bndls)) && anyMilestoneBundle bndls
  | None => false
  end.

(** The messages that the first loop of pruneUnconfirmedTransactions lets
    through: stored, not confirmed, and not kept back as part of a
    milestone. *)
Definition prunable (t : Tangle) (messageID : Hash) : bool :=
  match messages t !! messageID with
  | Some msg =>
      negb (IsConfirmed msg)
      && negb (MaybeMilestoneTx msg && hasMilestoneBundle t messageID)
  | None => false
  end.

(** The store [t'] differs from [t] at most in its messages and child
    references, and has no more of them. *)
Definition onlyMessagesRemoved (t t' : Tangle) : Prop :=
  messages t' ⊆ messages t /\
  children t' ⊆ children t /\
  unconfirmed t' = unconfirmed t /\
  bundles t' = bundles t /\
  milestones t' = milestones t /\
  ledgerDiffs t' = ledgerDiffs t /\
  solidEntryPoints t' = solidEntryPoints t /\
  storedSolidEntryPoints t' = storedSolidEntryPoints t /\
  snapshotInfo t' = snapshotInfo t.

(** The milestone records, ledger diffs and unconfirmed lists of the
    indexes above [T] are in [t'] what they are in [t]. *)
Definition untouchedAbove (T : Z) (t t' : Tangle) : Prop :=
  forall i, T < i ->
    milestones t' !! i = milestones t !! i /\
    (i ∈ ledgerDiffs t' <-> i ∈ ledgerDiffs t) /\
    unconfirmed t' !! i = unconfirmed t !! i.

(** The store after the four deletions that pruneMessages makes for a
    stored message. *)
Definition withoutMessage (x : Hash) (msg : Message) (t : Tangle) : Tangle :=
  tDeleteMessage x
    (tDeleteChildren x
       (tDeleteChild (Parent2MessageID msg) x
          (tDeleteChild (Parent1MessageID msg) x t))).

(** The SetIsPruning calls of a trace. *)
Definition isSetIsPruning (e : Effect) : bool :=
  match e with SetIsPruning _ => true | _ => false end.

End Pruning.

(** ** Cone root indexes *)

Module Dag.

(** The two results of GetConeRootIndexes while the cone is walked:
    youngestConeRootIndex and oldestConeRootIndex, both 0 at the start. *)
Record ConeRootIndexes : Type := mkConeRootIndexes {
  youngestConeRootIndex : Z;
  oldestConeRootIndex : Z
}.

Definition initialIndexes : ConeRootIndexes := mkConeRootIndexes 0 0.

(** The closure updateIndexes of GetConeRootIndexes, on the variables it
    captures. The indexes are only compared, so the width of milestone.Index
    plays no part. *)
Definition updateIndexes (ycri ocri : Z) (c : ConeRootIndexes) : ConeRootIndexes :=
  let youngest :=
    if (youngestConeRootIndex c =? 0) || (youngestConeRootIndex c <? ycri)
    then ycri else youngestConeRootIndex c in
  let oldest :=
    if (oldestConeRootIndex c =? 0) || (oldestConeRootIndex c >? ocri)
    then ocri else oldestConeRootIndex c in
  mkConeRootIndexes youngest oldest.

(** The calls of updateIndexes that a walk makes, in their order: one for
    every confirmed message (with its confirmation index twice), one for
    every message with a current calculation index (with its stored pair)
    and one for every solid entry point (with its index twice). *)
Definition applyUpdates (updates : list (Z * Z)) (c : ConeRootIndexes)
    : ConeRootIndexes :=
  fold_left (fun c u => updateIndexes u.1 u.2 c) updates c.


(** The least element of a list that is not empty. *)
Fixpoint minimum (l : list Z) : Z :=
  match l with
  | [] => 0
  | [x] => x
  | x :: rest => Z.min x (minimum rest)
  end.

End Dag.

(** * The state monad, as equations *)

Lemma exec_bind {S A B} (m : St.M S A) (k : A -> St.M S B) (s : S) :
  St.exec (m ≫= k) s = St.exec (k (St.eval m s)) (St.exec m s).
Proof.
  unfold St.exec, St.eval, mbind, St_mbind, St.bind.
  destruct (m s) as [a s']. reflexivity.
Qed.

Lemma eval_bind {S A B} (m : St.M S A) (k : A -> St.M S B) (s : S) :
  St.eval (m ≫= k) s = St.eval (k (St.eval m s)) (St.exec m s).
Proof.
  unfold St.exec, St.eval, mbind, St_mbind, St.bind.
  destruct (m s) as [a s']. reflexivity.
Qed.

Create HintDb st discriminated.
#[local] Hint Unfold St.exec St.eval St.bind St.ret St.get St.modify
  mbind mret St_mbind St_mret : st.

Lemma exec_ret {S A} (a : A) (s : S) : St.exec (mret a) s = s.
Proof. reflexivity. Qed.

Lemma run_bind {S A B} (m : St.M S A) (k : A -> St.M S B) (s : S) :
  (m ≫= k) s = k (St.eval m s) (St.exec m s).
Proof.
  unfold St.exec, St.eval, mbind, St_mbind, St.bind.
  destruct (m s) as [a s']. reflexivity.
Qed.

(** * Properties of the gossip service *)

Section GossipProperties.
Import Gossip.

Create HintDb gossip discriminated.
#[local] Hint Unfold Trigger connClose streamReset managerCall
  closeUnwantedStream registerProtocol openStream deregisterProtocol
  closeStream proto emit set_streams : gossip.

(** Unfold the monadic code of the service down to states and traces. *)
Ltac run_gossip := repeat (autounfold with st gossip; cbn).

Lemma trace_app3 (t : list Effect) (a b c : Effect) :
  ((t ++ [a]) ++ [b]) ++ [c] = t ++ [a; b; c].
Proof. by rewrite <- !app_assoc. Qed.



(** What deregisterProtocol does to a registered session: the entry is
    deleted, then the stream is reset; the flag is true whether or not the
    reset fails. *)
Lemma deregisterProtocol_registered (s : Service) (peerID : PeerID) (p : Protocol) :
  streams s !! peerID = Some p ->
  deregisterProtocol peerID s =
    ((true, ErrResetStream peerID <$> streamResetResult (host s) (ProtoStream p)),
     mkService (delete peerID (streams s)) (manager s) (optsSendQueueSize s)
       (host s) (trace s ++ [StreamReset (ProtoStream p)])).
Proof.
  intros Hp. run_gossip. rewrite Hp. run_gossip.
  destruct (streamResetResult (host s) (ProtoStream p)); reflexivity.
Qed.

(** closeStream on a registered session: ProtocolTerminated is fired only
    when the reset succeeds; when it fails, Error is fired instead. *)
Lemma closeStream_registered (s : Service) (peerID : PeerID) (p : Protocol) :
  streams s !! peerID = Some p ->
  St.exec (closeStream peerID) s =
    mkService (delete peerID (streams s)) (manager s) (optsSendQueueSize s)
      (host s)
      (trace s ++ [StreamReset (ProtoStream p);
                   match streamResetResult (host s) (ProtoStream p) with
                   | Some e => Error (ErrResetStream peerID e)
                   | None => ProtocolTerminated p
                   end]).
Proof.
  intros Hp. unfold closeStream.
  rewrite exec_bind. change (St.exec St.get s) with s.
  change (St.eval St.get s) with s. cbv beta zeta.
  rewrite exec_bind. unfold St.eval at 1, St.exec at 2.
  rewrite (deregisterProtocol_registered s peerID p Hp). cbn [fst snd].
  rewrite Hp.
  destruct (streamResetResult (host s) (ProtoStream p)); cbn;
    run_gossip; by rewrite <- app_assoc.
Qed.

(** relationUpdated with the new relation Unknown, on a registered session:
    the entry is deleted and the stream reset; the event loop then fires
    Error when the reset failed and nothing otherwise. *)
Lemma relationUpdated_unknown_registered
    (s : Service) (peer : Peer) (oldRel : PeerRelation) (p : Protocol) :
  Relation peer = PeerRelationUnknown ->
  streams s !! ID peer = Some p ->
  St.exec (handle (relationUpdated peer oldRel)) s =
    mkService (delete (ID peer) (streams s)) (manager s) (optsSendQueueSize s)
      (host s)
      (trace s ++ StreamReset (ProtoStream p) ::
         match streamResetResult (host s) (ProtoStream p) with
         | Some e => [Error (ErrResetStream (ID peer) e)]
         | None => []
         end).
Proof.
  intros Hrel Hp. unfold handle, handleRelationUpdated.
  rewrite Hrel. destruct (decide _) as [_|Hne]; [|done].
  rewrite !exec_bind, !eval_bind. unfold St.eval, St.exec.
  rewrite (deregisterProtocol_registered s (ID peer) p Hp). cbn [fst snd].
  destruct (streamResetResult (host s) (ProtoStream p)); cbn;
    run_gossip; by rewrite <- ?app_assoc.
Qed.

(** The downgrade never fires ProtocolTerminated, whatever the state. *)
Lemma relationUpdated_unknown_no_termination
    (s : Service) (peer : Peer) (oldRel : PeerRelation) :
  Relation peer = PeerRelationUnknown ->
  terminations (trace (St.exec (handle (relationUpdated peer oldRel)) s))
    = terminations (trace s).
Proof.
  intros Hrel. destruct (streams s !! ID peer) as [p|] eqn:Hp.
  - rewrite (relationUpdated_unknown_registered s peer oldRel p Hrel Hp).
    cbn [trace]. unfold terminations. rewrite List.filter_app.
    destruct (streamResetResult (host s) (ProtoStream p)); cbn;
      by rewrite app_nil_r.
  - unfold handle, handleRelationUpdated.
    rewrite Hrel. destruct (decide _) as [_|Hne]; [|done].
    run_gossip. rewrite Hp. reflexivity.
Qed.

(** C1. Scenario S2 of the spec, run on the code: Connected(P, outbound)
    creates the session; RelationUpdated(P, old=Known) with the relation of
    P now Unknown removes it from [streams] and resets its stream, and the
    event loop fires ProtocolTerminated for it not once but never. *)
Theorem relation_downgrade_fires_no_termination :
  let downgraded := mkPeer peerP PeerRelationUnknown in
  let s' := St.exec (eventLoop [connected (mkPeer peerP PeerRelationKnown) connOutbound;
                                relationUpdated downgraded PeerRelationKnown])
                    serviceFresh in
  streams s' !! peerP = None /\
  trace s' = [StreamNew peerP; StreamRead streamOut; ProtocolStarted sessionP;
              StreamReset streamOut] /\
  terminatedCount sessionP (trace s') = 0%nat /\
  terminations (trace s') = [].
Proof. vm_compute. repeat split. Qed.

(** C5. disconnected(P) and streamClosed(P) on a registered session whose
    stream fails to reset: the session is removed from [streams] and the
    error is fired on Error, but ProtocolTerminated is not fired for the
    removed session. *)
Theorem closeStream_reset_error_fires_no_termination :
  let failure := Error (ErrResetStream peerP resetFailure) in
  let s1 := St.exec (handle (disconnected (mkPeer peerP PeerRelationKnown)))
                    serviceResetFails in
  let s2 := St.exec (handle (streamClosed peerP streamOut)) serviceResetFails in
  streams serviceResetFails !! peerP = Some sessionP /\
  streams s1 !! peerP = None /\
  trace s1 = [StreamReset streamOut; failure] /\
  terminatedCount sessionP (trace s1) = 0%nat /\
  streams s2 !! peerP = None /\
  trace s2 = [StreamReset streamOut; failure] /\
  terminatedCount sessionP (trace s2) = 0%nat.
Proof. vm_compute. repeat split. Qed.




(** *** The event loop, one message at a time *)

(** The state an inbound stream leaves behind, by the three branches of
    handleInboundStream. *)
Lemma handle_inboundStream_eq (stream : Stream) (s : Service) :
  St.exec (handle (inboundStream stream)) s =
  match streams s !! RemotePeer (StreamConn stream) with
  | Some _ => cancelled stream StreamCancelReasonDuplicated s
  | None =>
      match manager s !! RemotePeer (StreamConn stream) with
      | Some peer =>
          if decide (Relation peer = PeerRelationUnknown)
          then cancelled stream StreamCancelReasonInsufficientPeerRelation s
          else accepted stream s
      | None => cancelled stream StreamCancelReasonInsufficientPeerRelation s
      end
  end.
Proof.
  unfold handle, handleInboundStream, cancelled, accepted. run_gossip.
  destruct (streams s !! _) as [x|]; run_gossip; [by rewrite trace_app3|].
  destruct (manager s !! _) as [peer|]; run_gossip;
    [|by rewrite trace_app3].
  destruct (decide _); run_gossip; [by rewrite trace_app3|reflexivity].
Qed.

(** The state a connected message leaves behind. *)
Lemma handle_connected_eq (peer : Peer) (conn : Conn) (s : Service) :
  St.exec (handle (connected peer conn)) s =
  match streams s !! ID peer with
  | Some _ => s
  | None =>
      if decide (StatDirection conn <> DirOutbound) then s
      else match hostNewStream (host s) (ID peer) with
           | inl err => openFailed (ID peer) err s
           | inr st => opened (ID peer) st s
           end
  end.
Proof.
  unfold handle, handleConnected, opened, openFailed. run_gossip.
  destruct (streams s !! _) as [x|]; run_gossip; [reflexivity|].
  destruct (decide _); run_gossip; [reflexivity|].
  destruct (hostNewStream _ _); run_gossip; by rewrite <- ?app_assoc.
Qed.

(** The state a relationUpdated message leaves behind when the new relation
    is not Unknown. *)
Lemma handle_relationUpdated_eq (peer : Peer) (oldRel : PeerRelation)
    (s : Service) :
  Relation peer <> PeerRelationUnknown ->
  St.exec (handle (relationUpdated peer oldRel)) s =
  match streams s !! ID peer with
  | Some _ => s
  | None =>
      match hostNewStream (host s) (ID peer) with
      | inl err => openFailed (ID peer) err s
      | inr st => opened (ID peer) st s
      end
  end.
Proof.
  intros Hrel. unfold handle, handleRelationUpdated, opened, openFailed.
  destruct (decide _) as [Heq|_]; [done|]. run_gossip.
  destruct (streams s !! _) as [x|]; run_gossip; [reflexivity|].
  destruct (hostNewStream _ _); run_gossip; by rewrite <- ?app_assoc.
Qed.

(** Closing the stream of a peer that has no session changes nothing. *)
Lemma closeStream_absent (peerID : PeerID) (s : Service) :
  streams s !! peerID = None ->
  St.exec (closeStream peerID) s = s.
Proof. intros Hp. run_gossip. by rewrite Hp. Qed.

Lemma relationUpdated_unknown_absent (peer : Peer) (oldRel : PeerRelation)
    (s : Service) :
  Relation peer = PeerRelationUnknown ->
  streams s !! ID peer = None ->
  St.exec (handle (relationUpdated peer oldRel)) s = s.
Proof.
  intros Hrel Hp. unfold handle, handleRelationUpdated.
  rewrite Hrel. destruct (decide _) as [_|Hne]; [|done].
  run_gossip. by rewrite Hp.
Qed.

(** forEach calls the function on the visited sessions, in order. *)
Lemma forEachList_eq (f : Protocol -> bool) (ps : list Protocol) (s : Service) :
  St.exec (forEachList f ps) s =
  mkService (streams s) (manager s) (optsSendQueueSize s) (host s)
    (trace s ++ (ForEachCall <$> visited f ps)).
Proof.
  revert s. induction ps as [|p ps IH]; intros s.
  { cbn. rewrite app_nil_r. by destruct s. }
  cbn [forEachList visited]. rewrite exec_bind.
  destruct (f p).
  - rewrite IH. run_gossip. by rewrite <- app_assoc.
  - reflexivity.
Qed.

Lemma handle_forEach_eq (f : Protocol -> bool) (s : Service) :
  St.exec (handle (forEachReq f)) s =
  mkService (streams s) (manager s) (optsSendQueueSize s) (host s)
    (trace s ++ (ForEachCall <$> visited f (sessions s)) ++ [ReplyForEach]).
Proof.
  unfold handle, forEach. rewrite !exec_bind.
  change (St.exec St.get s) with s. change (St.eval St.get s) with s.
  cbv beta. rewrite forEachList_eq. run_gossip. by rewrite <- app_assoc.
Qed.

(** Every message is handled by one of the three kinds of step, and
    leaves the peer table, the options and the transport alone. *)
Lemma handle_step (m : Msg) (s : Service) :
  let s' := St.exec (handle m) s in
  manager s' = manager s /\
  optsSendQueueSize s' = optsSendQueueSize s /\
  host s' = host s /\
  exists d, trace s' = trace s ++ d /\ Step s s' d.
Proof.
  assert (Hsame : manager s = manager s /\ optsSendQueueSize s = optsSendQueueSize s /\
                  host s = host s /\
                  exists d, trace s = trace s ++ d /\ Step s s d).
  { repeat split. exists []. rewrite app_nil_r. split; [done|].
    by apply StepSame. }
  assert (Hopen : forall p, streams s !! p = None ->
            let s' := match hostNewStream (host s) p with
                      | inl err => openFailed p err s
                      | inr st => opened p st s
                      end in
            manager s' = manager s /\ optsSendQueueSize s' = optsSendQueueSize s /\
            host s' = host s /\ exists d, trace s' = trace s ++ d /\ Step s s' d).
  { intros p Hp. destruct (hostNewStream (host s) p) as [err|st]; cbn.
    - repeat split. eexists. split; [reflexivity|].
      apply StepSame; [done|]. by repeat constructor.
    - repeat split. eexists. split; [reflexivity|].
      apply (StepRegistered _ _ _ p st [StreamNew p; StreamRead st]); try done.
      by repeat constructor. }
  assert (Hclose : forall p,
            let s' := St.exec (closeStream p) s in
            manager s' = manager s /\ optsSendQueueSize s' = optsSendQueueSize s /\
            host s' = host s /\ exists d, trace s' = trace s ++ d /\ Step s s' d).
  { intros p. destruct (streams s !! p) as [x|] eqn:Hp.
    - cbv zeta. rewrite (closeStream_registered s p x Hp). cbn.
      repeat split. eexists. split; [reflexivity|].
      apply (StepRemoved _ _ _ p x); try done.
      destruct (streamResetResult _ _); repeat constructor; try done;
        by intros y [= ->].
    - cbv zeta. by rewrite (closeStream_absent p s Hp). }
  destruct m as [|stream|peer conn|peer|peerID stream|peer oldRel|peerID|f];
    cbv zeta.
  - exact Hsame.
  - rewrite handle_inboundStream_eq.
    assert (Hcancel : forall reason,
              manager (cancelled stream reason s) = manager s /\
              optsSendQueueSize (cancelled stream reason s) = optsSendQueueSize s /\
              host (cancelled stream reason s) = host s /\
              exists d, trace (cancelled stream reason s) = trace s ++ d /\
                        Step s (cancelled stream reason s) d).
    { intros reason. repeat split. eexists. split; [reflexivity|].
      apply StepSame; [done|]. by repeat constructor. }
    destruct (streams s !! _) as [x|] eqn:Hx; [apply Hcancel|].
    destruct (manager s !! _) as [peer|]; [|apply Hcancel].
    destruct (decide _); [apply Hcancel|].
    repeat split. eexists. split; [reflexivity|].
    by apply (StepRegistered _ _ _ (RemotePeer (StreamConn stream)) stream []).
  - rewrite handle_connected_eq.
    destruct (streams s !! _) as [x|] eqn:Hx; [exact Hsame|].
    destruct (decide _); [exact Hsame|]. by apply Hopen.
  - apply Hclose.
  - apply Hclose.
  - destruct (decide (Relation peer = PeerRelationUnknown)) as [Hrel|Hrel].
    + destruct (streams s !! ID peer) as [x|] eqn:Hp.
      * rewrite (relationUpdated_unknown_registered s peer oldRel x Hrel Hp). cbn.
        repeat split. eexists. split; [reflexivity|].
        apply (StepRemoved _ _ _ (ID peer) x); try done.
        destruct (streamResetResult _ _); by repeat constructor.
      * by rewrite (relationUpdated_unknown_absent peer oldRel s Hrel Hp).
    + rewrite (handle_relationUpdated_eq peer oldRel s Hrel).
      destruct (streams s !! _) as [x|] eqn:Hx; [exact Hsame|]. by apply Hopen.
  - repeat split. exists [ReplyProtocol (streams s !! peerID)].
    split; [reflexivity|]. apply StepSame; [done|]. by repeat constructor.
  - rewrite handle_forEach_eq. cbn. repeat split. eexists.
    split; [reflexivity|]. apply StepSame; [done|].
    apply Forall_app. split; [|by repeat constructor].
    apply Forall_forall. intros e He.
    apply list_elem_of_fmap in He as (q & -> & _). reflexivity.
Qed.

(** *** What the event loop keeps and what it announces *)

Lemma eventLoop_cons (m : Msg) (rest : list Msg) (s : Service) :
  m <> shutdownSignal ->
  St.exec (eventLoop (m :: rest)) s
    = St.exec (eventLoop rest) (St.exec (handle m) s).
Proof.
  intros Hm. destruct m; try done; cbn [eventLoop]; by rewrite exec_bind.
Qed.

Lemma shutdownSignal_or_not (m : Msg) :
  m = shutdownSignal \/ m <> shutdownSignal.
Proof. destruct m; (by left) || (by right). Qed.

(** X1. Whatever messages the event loop handles, every session stays
    registered under the peer ID it carries and with the send queue size of
    the options, and the options stay as they are. *)
Theorem eventLoop_keeps_sessions_keyed (msgs : list Msg) (s : Service) :
  sessionsKeyed s ->
  sessionsKeyed (St.exec (eventLoop msgs) s) /\
  optsSendQueueSize (St.exec (eventLoop msgs) s) = optsSendQueueSize s.
Proof.
  revert s. induction msgs as [|m rest IH]; intros s Hk; [by split|].
  destruct (shutdownSignal_or_not m) as [->|Hm]; [by split|].
  rewrite (eventLoop_cons m rest s Hm).
  destruct (handle_step m s) as (_ & Hq & _ & d & _ & Hstep).
  set (s1 := St.exec (handle m) s) in *. clearbody s1.
  assert (Hk1 : sessionsKeyed s1).
  { intros p x Hx. rewrite Hq.
    destruct Hstep as [Hs _|q y Hy Hs _|q st pre Hnone Hs _ _].
    - rewrite Hs in Hx. by apply Hk.
    - rewrite Hs in Hx. apply lookup_delete_Some in Hx as [_ Hx]. by apply Hk.
    - rewrite Hs in Hx. apply lookup_insert_Some in Hx as [[<- <-]|[_ Hx]];
        [by split|by apply Hk]. }
  destruct (IH s1 Hk1) as [Hk' Hq']. split; [exact Hk'|congruence].
Qed.

Lemma eventLoop_keeps_sessions_keyed_witness :
  sessionsKeyed serviceWithSession /\
  sessionsKeyed
    (St.exec (eventLoop [inboundStream streamIn;
                         disconnected (mkPeer peerP PeerRelationKnown);
                         connected (mkPeer peerP PeerRelationKnown) connOutbound])
             serviceWithSession).
Proof.
  assert (Hk : sessionsKeyed serviceWithSession).
  { intros p x Hx. unfold serviceWithSession in Hx. cbn in Hx.
    apply lookup_singleton_Some in Hx as [<- <-]. by split. }
  split; [exact Hk|].
  exact (proj1 (eventLoop_keeps_sessions_keyed _ serviceWithSession Hk)).
Defined.

(** X2. Handling one message never replaces a registered session by another
    one: the session of a peer is afterwards the same or gone, and it can
    only be gone after a disconnected, streamClosed or relationUpdated
    message. *)
Theorem handle_never_replaces_session (m : Msg) (s : Service) (p : PeerID)
    (x : Protocol) :
  streams s !! p = Some x ->
  let s' := St.exec (handle m) s in
  (streams s' !! p = Some x \/ streams s' !! p = None) /\
  match m with
  | disconnected _ | streamClosed _ _ | relationUpdated _ _ => True
  | _ => streams s' !! p = Some x
  end.
Proof.
  intros Hx s'.
  assert (Hfirst : streams s' !! p = Some x \/ streams s' !! p = None).
  { subst s'. destruct (handle_step m s) as (_ & _ & _ & d & _ & Hstep).
    destruct Hstep as [Hs _|q y Hy Hs _|q st pre Hnone Hs _ _]; rewrite Hs.
    - by left.
    - destruct (decide (q = p)) as [->|Hne].
      + right. apply lookup_delete_eq.
      + left. by rewrite lookup_delete_ne.
    - left. rewrite lookup_insert_ne; [done|]. intros ->. congruence. }
  split; [exact Hfirst|]. subst s'.
  destruct m as [|stream|peer conn|peer|peerID stream|peer oldRel|peerID|f];
    try done.
  - rewrite handle_inboundStream_eq.
    destruct (streams s !! RemotePeer _) as [y|] eqn:Hy; [done|].
    destruct (manager s !! _) as [peer|]; [|done].
    destruct (decide _); [done|]. cbn.
    rewrite lookup_insert_ne; [done|]. intros Heq. congruence.
  - rewrite handle_connected_eq.
    destruct (streams s !! ID peer) as [y|] eqn:Hy; [done|].
    destruct (decide _); [done|].
    destruct (hostNewStream _ _); cbn; [done|].
    rewrite lookup_insert_ne; [done|]. intros Heq. congruence.
  - rewrite handle_forEach_eq. done.
Qed.

Lemma handle_never_replaces_session_witness :
  streams serviceWithSession !! peerP = Some sessionP /\
  streams (St.exec (handle (inboundStream streamIn)) serviceWithSession) !! peerP
    = Some sessionP.
Proof.
  split; [reflexivity|].
  exact (proj2 (handle_never_replaces_session (inboundStream streamIn)
                  serviceWithSession peerP sessionP eq_refl)).
Defined.

(** X3. The event loop fires ProtocolStarted for a session in the very step
    in which that session enters [streams] for a peer that had none, and at
    no other time. *)
Theorem session_started_iff_registered (m : Msg) (s : Service) :
  let s' := St.exec (handle m) s in
  exists d,
    trace s' = trace s ++ d /\
    forall x,
      ProtocolStarted x ∈ d <->
      streams s !! ProtoPeerID x = None /\ streams s' !! ProtoPeerID x = Some x.
Proof.
  cbv zeta. destruct (handle_step m s) as (_ & _ & _ & d & Hd & Hstep).
  exists d. split; [exact Hd|]. intros x.
  destruct Hstep as [Hs HF|q y Hy Hs HF|q st pre Hnone Hs -> HF].
  - rewrite Hs. split.
    + intros Hin. rewrite Forall_forall in HF. by apply HF in Hin.
    + intros [H1 H2]. congruence.
  - rewrite Hs. split.
    + intros Hin. rewrite Forall_forall in HF. apply HF in Hin as [Hin _].
      by destruct (Hin x).
    + intros [H1 H2]. apply lookup_delete_Some in H2 as [_ H2]. congruence.
  - rewrite Hs. split.
    + intros Hin. apply elem_of_app in Hin as [Hin|Hin].
      * rewrite Forall_forall in HF. by apply HF in Hin.
      * apply list_elem_of_singleton in Hin as [= ->]. cbn.
        split; [exact Hnone|apply lookup_insert_eq].
    + intros [H1 H2]. apply elem_of_app. right. apply list_elem_of_singleton.
      apply lookup_insert_Some in H2 as [[_ <-]|[_ H2]]; [done|congruence].
Qed.

(** X4. ProtocolTerminated is only fired for a session that the same step
    removed from [streams]. *)
Theorem session_terminated_only_if_removed (m : Msg) (s : Service) :
  let s' := St.exec (handle m) s in
  exists d,
    trace s' = trace s ++ d /\
    forall x,
      ProtocolTerminated x ∈ d ->
      exists p, streams s !! p = Some x /\ streams s' !! p = None.
Proof.
  cbv zeta. destruct (handle_step m s) as (_ & _ & _ & d & Hd & Hstep).
  exists d. split; [exact Hd|]. intros x Hin.
  destruct Hstep as [Hs HF|q y Hy Hs HF|q st pre Hnone Hs -> HF].
  - rewrite Forall_forall in HF. by apply HF in Hin.
  - rewrite Forall_forall in HF. apply HF in Hin as [_ Hin].
    rewrite (Hin x eq_refl). exists q. split; [exact Hy|].
    rewrite Hs. apply lookup_delete_eq.
  - apply elem_of_app in Hin as [Hin|Hin].
    + rewrite Forall_forall in HF. by apply HF in Hin.
    + by apply list_elem_of_singleton in Hin.
Qed.

(** *** Races, round trips and queries *)



(** X6. A connected message only starts a session for an outbound
    connection. For any other direction the service is left as it is;
    when opening the stream fails, the peer stays without a session and
    the wrapped error is the one event fired. *)
Theorem connected_without_session (s : Service) (peer : Peer) (conn : Conn) :
  streams s !! ID peer = None ->
  (StatDirection conn <> DirOutbound ->
   St.exec (handle (connected peer conn)) s = s) /\
  (forall err,
     StatDirection conn = DirOutbound ->
     hostNewStream (host s) (ID peer) = inl err ->
     St.exec (handle (connected peer conn)) s = openFailed (ID peer) err s /\
     streams (St.exec (handle (connected peer conn)) s) !! ID peer = None) /\
  (forall st,
     StatDirection conn = DirOutbound ->
     hostNewStream (host s) (ID peer) = inr st ->
     St.exec (handle (connected peer conn)) s = opened (ID peer) st s).
Proof.
  intros Hnone. rewrite handle_connected_eq, Hnone.
  split; [|split].
  - intros Hdir. by destruct (decide _).
  - intros err Hdir Hst.
    destruct (decide _) as [Hd|_]; [congruence|]. rewrite Hst.
    split; [reflexivity|exact Hnone].
  - intros st Hdir Hst.
    destruct (decide _) as [Hd|_]; [congruence|]. by rewrite Hst.
Qed.

Lemma connected_without_session_witness :
  streams serviceDown !! peerP = None /\
  St.exec (handle (connected (mkPeer peerP PeerRelationKnown) connInbound))
    serviceDown = serviceDown /\
  St.exec (handle (connected (mkPeer peerP PeerRelationKnown) connOutbound))
    serviceDown
    = openFailed peerP (TransportError "dial failed") serviceDown.
Proof.
  split; [reflexivity|].
  destruct (connected_without_session serviceDown
              (mkPeer peerP PeerRelationKnown) connInbound eq_refl)
    as (Hin & _ & _).
  destruct (connected_without_session serviceDown
              (mkPeer peerP PeerRelationKnown) connOutbound eq_refl)
    as (_ & Hfail & _).
  split.
  - apply Hin. discriminate.
  - apply (Hfail (TransportError "dial failed")); reflexivity.
Defined.

(** X7. A relationUpdated message whose new relation is not Unknown is
    handled exactly like a connected message with an outbound connection,
    whatever the old relation was and whatever direction the peer's
    connection really has. *)
Theorem relation_upgrade_like_outbound_connect (s : Service) (peer : Peer)
    (oldRel : PeerRelation) (conn : Conn) :
  Relation peer <> PeerRelationUnknown ->
  StatDirection conn = DirOutbound ->
  St.exec (handle (relationUpdated peer oldRel)) s
    = St.exec (handle (connected peer conn)) s.
Proof.
  intros Hrel Hdir.
  rewrite (handle_relationUpdated_eq peer oldRel s Hrel), handle_connected_eq.
  destruct (streams s !! ID peer); [reflexivity|].
  destruct (decide _) as [Hd|_]; [congruence|reflexivity].
Qed.

Lemma relation_upgrade_like_outbound_connect_witness :
  St.exec (handle (relationUpdated (mkPeer peerP PeerRelationAutopeered)
                     PeerRelationUnknown)) serviceFresh
    = St.exec (handle (connected (mkPeer peerP PeerRelationAutopeered)
                         connOutbound)) serviceFresh.
Proof.
  apply (relation_upgrade_like_outbound_connect serviceFresh
           (mkPeer peerP PeerRelationAutopeered) PeerRelationUnknown connOutbound).
  - discriminate.
  - reflexivity.
Defined.

Lemma closeStream_gone (peerID : PeerID) (s : Service) :
  streams (St.exec (closeStream peerID) s) !! peerID = None.
Proof.
  destruct (streams s !! peerID) as [x|] eqn:Hp.
  - rewrite (closeStream_registered s peerID x Hp). cbn. apply lookup_delete_eq.
  - by rewrite (closeStream_absent peerID s Hp).
Qed.

(** X8. Closing is idempotent: once a disconnected or streamClosed message
    for a peer was handled, the peer has no session, and any further
    disconnected or streamClosed message for it changes nothing, not even
    the trace. *)
Theorem close_is_idempotent (s : Service) (peer : Peer) (stream : Stream) :
  let s1 := St.exec (handle (disconnected peer)) s in
  let s2 := St.exec (handle (streamClosed (ID peer) stream)) s in
  streams s1 !! ID peer = None /\
  streams s2 !! ID peer = None /\
  St.exec (handle (streamClosed (ID peer) stream)) s1 = s1 /\
  St.exec (handle (disconnected peer)) s1 = s1 /\
  St.exec (handle (disconnected peer)) s2 = s2 /\
  St.exec (handle (streamClosed (ID peer) stream)) s2 = s2.
Proof.
  cbn [handle]. pose proof (closeStream_gone (ID peer) s) as Hgone.
  repeat split; try exact Hgone; by apply closeStream_absent.
Qed.

(** X9. Connecting outbound and disconnecting is a round trip on [streams]:
    when the peer had no session, the stream opens and its reset succeeds,
    [streams] is afterwards what it was, and the events fired are
    ProtocolStarted and ProtocolTerminated for the same session, in that
    order. *)
Theorem connect_disconnect_round_trip (s : Service) (peer : Peer) (conn : Conn)
    (st : Stream) :
  streams s !! ID peer = None ->
  StatDirection conn = DirOutbound ->
  hostNewStream (host s) (ID peer) = inr st ->
  streamResetResult (host s) st = None ->
  let x := NewProtocol (ID peer) st (optsSendQueueSize s) in
  St.exec (eventLoop [connected peer conn; disconnected peer]) s =
  mkService (streams s) (manager s) (optsSendQueueSize s) (host s)
    (trace s ++ [StreamNew (ID peer); StreamRead st; ProtocolStarted x;
                 StreamReset st; ProtocolTerminated x]).
Proof.
  intros Hnone Hdir Hst Hreset x.
  rewrite !eventLoop_cons by done.
  change (St.exec (eventLoop []) ?a) with a.
  rewrite handle_connected_eq, Hnone, Hst.
  destruct (decide _) as [Hd|_]; [congruence|].
  cbn [handle].
  rewrite (closeStream_registered (opened (ID peer) st s) (ID peer) x)
    by (cbn; apply lookup_insert_eq).
  cbn. rewrite Hreset, delete_insert_eq, delete_id by exact Hnone.
  by rewrite <- app_assoc.
Qed.

Lemma connect_disconnect_round_trip_witness :
  streams serviceFresh !! peerP = None /\
  streams (St.exec (eventLoop [connected (mkPeer peerP PeerRelationKnown) connOutbound;
                               disconnected (mkPeer peerP PeerRelationKnown)])
             serviceFresh) = streams serviceFresh.
Proof.
  split; [reflexivity|].
  rewrite (connect_disconnect_round_trip serviceFresh
             (mkPeer peerP PeerRelationKnown) connOutbound streamOut);
    reflexivity.
Defined.

(** X10. The shutdown signal ends the event loop: the messages behind it
    are not handled. *)
Theorem eventLoop_stops_at_shutdown (before after : list Msg) (s : Service) :
  St.exec (eventLoop (before ++ shutdownSignal :: after)) s
    = St.exec (eventLoop before) s.
Proof.
  revert s. induction before as [|m before IH]; intros s; [reflexivity|].
  destruct (shutdownSignal_or_not m) as [->|Hm]; [reflexivity|].
  cbn [app]. rewrite !eventLoop_cons by exact Hm. apply IH.
Qed.

Lemma visited_prefix (f : Protocol -> bool) (ps : list Protocol) :
  visited f ps `prefix_of` ps.
Proof.
  induction ps as [|p ps IH]; [done|]. cbn.
  destruct (f p); [by apply prefix_cons|].
  apply prefix_cons, prefix_nil.
Qed.

Lemma visited_all (f : Protocol -> bool) (ps : list Protocol) :
  (forall x, x ∈ ps -> f x = true) -> visited f ps = ps.
Proof.
  induction ps as [|p ps IH]; intros Hf; [reflexivity|]. cbn.
  rewrite (Hf p) by apply list_elem_of_here. f_equal. apply IH.
  intros x Hx. apply Hf. by apply list_elem_of_further.
Qed.

Lemma elem_of_sessions (s : Service) (x : Protocol) :
  x ∈ sessions s <-> exists p, streams s !! p = Some x.
Proof.
  unfold sessions. rewrite list_elem_of_fmap. split.
  - intros ([p y] & -> & Hin). exists p. by apply elem_of_map_to_list.
  - intros [p Hp]. exists (p, x). split; [done|]. by apply elem_of_map_to_list.
Qed.

(** X11. The queries do not change the service beyond the trace. streamReq
    replies with the entry of the peer, nil when there is none. forEach
    calls the function on registered sessions only, on each at most once,
    stops after the first call that returns false, and visits every session
    when the function always returns true. *)
Theorem queries_only_read (s : Service) (peerID : PeerID) (f : Protocol -> bool) :
  St.exec (handle (streamReq peerID)) s
    = emit (ReplyProtocol (streams s !! peerID)) s /\
  St.exec (handle (forEachReq f)) s
    = mkService (streams s) (manager s) (optsSendQueueSize s) (host s)
        (trace s ++ (ForEachCall <$> visited f (sessions s)) ++ [ReplyForEach]) /\
  visited f (sessions s) `prefix_of` sessions s /\
  (forall x, x ∈ visited f (sessions s) -> exists p, streams s !! p = Some x) /\
  (length (visited f (sessions s)) <= size (streams s))%nat /\
  (forall pre x post, visited f (sessions s) = pre ++ x :: post ->
                      post <> [] -> f x = true) /\
  ((forall x, f x = true) -> visited f (sessions s) = sessions s).
Proof.
  split; [reflexivity|]. split; [apply handle_forEach_eq|].
  pose proof (visited_prefix f (sessions s)) as Hpre.
  split; [exact Hpre|]. split; [|split; [|split]].
  - intros x Hx. apply elem_of_sessions.
    destruct Hpre as [k ->]. apply elem_of_app. by left.
  - apply prefix_length in Hpre. unfold sessions in Hpre at 2.
    rewrite length_fmap, length_map_to_list in Hpre. exact Hpre.
  - generalize (sessions s). intros ps. induction ps as [|p ps IH];
      intros pre x post Heq Hpost; [by destruct pre|].
    cbn in Heq. destruct pre as [|q pre]; cbn in Heq.
    + injection Heq as <- Heq. destruct (f p); [done|]. by subst post.
    + injection Heq as <- Heq. destruct (f p); [by eapply IH|].
      by destruct pre.
  - intros Hf. apply visited_all. intros x _. apply Hf.
Qed.

Lemma forEachAcc_count (IsSynced : Protocol -> bool) (ps : list Protocol) (n : Z) :
  forEachAcc (fun proto count => (true, if IsSynced proto then count + 1 else count))
             ps n
  = n + Z.of_nat (length (List.filter IsSynced ps)).
Proof.
  revert n. induction ps as [|p ps IH]; intros n; cbn; [lia|].
  rewrite IH. destruct (IsSynced p); cbn [length]; lia.
Qed.

(** X12. SynchronizedCount is the number of registered sessions for which
    IsSynced holds at the given milestone index, each counted once; it lies
    between 0 and the number of sessions. *)
Theorem SynchronizedCount_counts_synced (IsSynced : Protocol -> Z -> bool)
    (latestMilestoneIndex : Z) (s : Service) :
  SynchronizedCount IsSynced latestMilestoneIndex s
    = Z.of_nat (length (List.filter (fun x => IsSynced x latestMilestoneIndex)
                                    (sessions s))) /\
  0 <= SynchronizedCount IsSynced latestMilestoneIndex s
    <= Z.of_nat (size (streams s)).
Proof.
  unfold SynchronizedCount.
  rewrite (forEachAcc_count (fun x => IsSynced x latestMilestoneIndex)).
  split; [lia|].
  pose proof (List.filter_length_le (fun x => IsSynced x latestMilestoneIndex)
                (sessions s)) as Hle.
  unfold sessions in Hle at 2. rewrite length_fmap, length_map_to_list in Hle.
  lia.
Qed.

Lemma ServiceOptions_apply_app (so : ServiceOptions) (a b : list ServiceOption) :
  ServiceOptions_apply so (a ++ b)
    = ServiceOptions_apply (ServiceOptions_apply so a) b.
Proof. apply fold_left_app. Qed.

(** X13. NewService applies the defaults first and the caller's options
    after them. Without options the send queue holds 1000 messages and the
    stream connect timeout is 4 seconds, with no logger; an option given
    last overrides the default and every earlier option of its kind, and
    leaves the other settings alone. The new service has no streams. *)
Theorem NewService_options (h : Transport) (m : gmap PeerID Peer)
    (opts : list ServiceOption) (size dur : Z) :
  NewServiceOptions [] = mkServiceOptions 1000 4000000000 None /\
  SendQueueSize (NewServiceOptions (opts ++ [WithSendQueueSize size])) = size /\
  StreamConnectTimeout (NewServiceOptions (opts ++ [WithSendQueueSize size]))
    = StreamConnectTimeout (NewServiceOptions opts) /\
  StreamConnectTimeout (NewServiceOptions (opts ++ [WithStreamConnectTimeout dur]))
    = dur /\
  SendQueueSize (NewServiceOptions (opts ++ [WithStreamConnectTimeout dur]))
    = SendQueueSize (NewServiceOptions opts) /\
  optsSendQueueSize (NewService h m (opts ++ [WithSendQueueSize size])) = size /\
  optsSendQueueSize (NewService h m []) = 1000 /\
  streams (NewService h m opts) = ∅ /\
  sessionsKeyed (NewService h m opts).
Proof.
  assert (Hk : sessionsKeyed (NewService h m opts)).
  { intros p x Hx. cbn in Hx. by rewrite lookup_empty in Hx. }
  unfold NewService, NewServiceOptions in *. rewrite !ServiceOptions_apply_app.
  do 8 (split; [reflexivity|]). exact Hk.
Qed.

End GossipProperties.

(** * Properties of the pruning engine *)

Section PruningProperties.
Import Pruning.

Create HintDb pruning discriminated.
#[local] Hint Unfold call deleteChild deleteChildren deleteMessage
  deleteUnconfirmedMessages deleteMilestone deleteLedgerDiffForMilestone
  resetSolidEntryPoints solidEntryPointsAdd storeSolidEntryPoints
  setSnapshotInfo runGarbageCollection triggerPruningMilestoneIndexChanged
  setIsPruning pruneMilestone emit set_tangle : pruning.

(** Unfold the monadic code of the engine down to worlds and traces. *)
Ltac run_pruning := repeat (autounfold with st pruning; cbn).

Lemma deletesOf_mono (ids ids' : list Hash) (e : Effect) :
  (forall x, x ∈ ids -> x ∈ ids') -> deletesOf ids e -> deletesOf ids' e.
Proof. intros Hsub. destruct e; cbn; auto. Qed.

(** One round of the loop of pruneMessages. *)
Lemma pruneMessages_cons (messageID : Hash) (rest : list Hash) (w : World) :
  St.exec (pruneMessages (messageID :: rest)) w =
  St.exec (pruneMessages rest)
    match messages (tangle w) !! messageID with
    | None => w
    | Some msg =>
        mkWorld
          (tDeleteMessage messageID
             (tDeleteChildren messageID
                (tDeleteChild (Parent2MessageID msg) messageID
                   (tDeleteChild (Parent1MessageID msg) messageID (tangle w)))))
          (isPruning w)
          (trace w ++ [DeleteChild (Parent1MessageID msg) messageID;
                       DeleteChild (Parent2MessageID msg) messageID;
                       DeleteChildren messageID;
                       DeleteMessage messageID])
    end.
Proof.
  cbn [pruneMessages]. rewrite exec_bind. change (St.exec St.get w) with w.
  change (St.eval St.get w) with w. cbv beta.
  rewrite !exec_bind, exec_ret. f_equal.
  destruct (messages (tangle w) !! messageID) as [msg|]; [|reflexivity].
  run_pruning. by rewrite <- ?app_assoc.
Qed.

Lemma pruneMessages_count (ids : list Hash) (w : World) :
  St.eval (pruneMessages ids) w = length ids.
Proof.
  revert w. induction ids as [|x ids IH]; intros w; [reflexivity|].
  cbn [pruneMessages]. rewrite !eval_bind. cbn [length].
  unfold St.eval at 1. cbn. f_equal. apply IH.
Qed.

(** A message that is absent from the store costs pruneMessages nothing. *)
Lemma pruneMessages_absent (ids : list Hash) (w : World) :
  (forall x, x ∈ ids -> messages (tangle w) !! x = None) ->
  pruneMessages ids w = (length ids, w).
Proof.
  intros Habs.
  rewrite (surjective_pairing (pruneMessages ids w)).
  change (pruneMessages ids w).1 with (St.eval (pruneMessages ids) w).
  change (pruneMessages ids w).2 with (St.exec (pruneMessages ids) w).
  rewrite pruneMessages_count. f_equal.
  induction ids as [|x ids IH]; [reflexivity|].
  rewrite pruneMessages_cons, (Habs x) by apply list_elem_of_here.
  apply IH. intros y Hy. apply Habs. by apply list_elem_of_further.
Qed.

(** What pruneMessages changes and what it leaves alone. *)
Lemma pruneMessages_frame (ids : list Hash) (w : World) :
  let w' := St.exec (pruneMessages ids) w in
  (exists d, trace w' = trace w ++ d /\ Forall (deletesOf ids) d) /\
  snapshotInfo (tangle w') = snapshotInfo (tangle w) /\
  milestones (tangle w') = milestones (tangle w) /\
  isPruning w' = isPruning w /\
  (forall x, x ∈ ids -> messages (tangle w') !! x = None) /\
  (forall x, x ∉ ids -> messages (tangle w') !! x = messages (tangle w) !! x) /\
  (forall x, messages (tangle w) !! x = None -> messages (tangle w') !! x = None).
Proof.
  revert w. induction ids as [|x ids IH]; intros w.
  { cbn. repeat split; try done.
    - exists []. by rewrite app_nil_r.
    - intros y Hy. by apply elem_of_nil in Hy. }
  cbv zeta. rewrite pruneMessages_cons.
  set (w1 := match messages (tangle w) !! x with None => w | Some _ => _ end).
  destruct (IH w1) as (Htr & Hsi & Hms & Hip & Hdel & Hkeep & Hnone).
  assert (H1 : (exists d1, trace w1 = trace w ++ d1 /\ Forall (deletesOf (x :: ids)) d1)
               /\ snapshotInfo (tangle w1) = snapshotInfo (tangle w)
               /\ milestones (tangle w1) = milestones (tangle w)
               /\ isPruning w1 = isPruning w
               /\ messages (tangle w1) = delete x (messages (tangle w))).
  { subst w1. destruct (messages (tangle w) !! x) as [msg|] eqn:Hx.
    - cbn. repeat split; try done. eexists. split; [reflexivity|].
      repeat constructor; cbn; apply list_elem_of_here.
    - repeat split; try done.
      + exists []. by rewrite app_nil_r.
      + symmetry. by apply delete_id. }
  destruct H1 as ((d1 & Hd1 & HF1) & Hsi1 & Hms1 & Hip1 & Hmsg1).
  repeat split.
  - destruct Htr as (d & Hd & HF). exists (d1 ++ d). split.
    + by rewrite Hd, Hd1, app_assoc.
    + apply Forall_app. split; [exact HF1|].
      eapply Forall_impl; [exact HF|]. intros e. apply deletesOf_mono.
      intros y Hy. by apply list_elem_of_further.
  - congruence.
  - congruence.
  - congruence.
  - intros y Hy. apply elem_of_cons in Hy as [->|Hy]; [|by apply Hdel].
    apply Hnone. rewrite Hmsg1. apply lookup_delete_eq.
  - intros y Hy. apply not_elem_of_cons in Hy as [Hne Hy].
    rewrite (Hkeep y Hy), Hmsg1. by apply lookup_delete_ne.
  - intros y Hy. apply Hnone. rewrite Hmsg1.
    destruct (decide (x = y)) as [->|Hne];
      [apply lookup_delete_eq | by rewrite lookup_delete_ne].
Qed.

(** C9. pruneMessages is idempotent per message. A message ID that is
    absent from the store when the loop reaches it is skipped with no call
    to the store; and since every ID of the set is absent once the set was
    pruned, pruning the same set again, in whatever order the map is
    walked, changes neither the store nor the trace. *)
Theorem pruneMessages_idempotent (ids : list Hash) (w : World) :
  (forall messageID rest,
     messages (tangle w) !! messageID = None ->
     St.exec (pruneMessages (messageID :: rest)) w
       = St.exec (pruneMessages rest) w) /\
  (forall x, x ∈ ids ->
     messages (tangle (St.exec (pruneMessages ids) w)) !! x = None) /\
  St.exec (pruneMessages ids) (St.exec (pruneMessages ids) w)
    = St.exec (pruneMessages ids) w /\
  (forall ids', ids' ≡ₚ ids ->
     St.exec (pruneMessages ids') (St.exec (pruneMessages ids) w)
       = St.exec (pruneMessages ids) w).
Proof.
  destruct (pruneMessages_frame ids w) as (_ & _ & _ & _ & Hdel & _ & _).
  split; [|split; [exact Hdel|]].
  - intros messageID rest Habs. by rewrite pruneMessages_cons, Habs.
  - assert (Hperm : forall ids', ids' ≡ₚ ids ->
        St.exec (pruneMessages ids') (St.exec (pruneMessages ids) w)
          = St.exec (pruneMessages ids) w).
    { intros ids' Hp. unfold St.exec at 1.
      rewrite pruneMessages_absent; [reflexivity|].
      intros x Hx. apply Hdel. by rewrite <- Hp. }
    split; [by apply Hperm|exact Hperm].
Qed.

(** The second half of pruneUnconfirmedTransactions, on the collected set. *)
Lemma pruneUnconfirmedTransactions_exec (index : Z) (w : World) :
  St.exec (pruneUnconfirmedTransactions index) w =
  emit (DeleteUnconfirmedMessages index)
    (set_tangle (tDeleteUnconfirmedMessages index)
       (St.exec (pruneMessages
                   (collectUnconfirmed (tangle w)
                      (GetUnconfirmedMessageIDs index (tangle w)) [])) w)).
Proof.
  unfold pruneUnconfirmedTransactions.
  rewrite exec_bind. change (St.exec St.get w) with w.
  change (St.eval St.get w) with w. cbv beta zeta.
  rewrite !exec_bind, exec_ret. reflexivity.
Qed.

Lemma pruneUnconfirmedTransactions_frame (index : Z) (w : World) :
  let ids := collectUnconfirmed (tangle w)
               (GetUnconfirmedMessageIDs index (tangle w)) [] in
  let w' := St.exec (pruneUnconfirmedTransactions index) w in
  (exists d, trace w' = trace w ++ d /\ Forall (unconfirmedEvent index ids) d) /\
  snapshotInfo (tangle w') = snapshotInfo (tangle w) /\
  milestones (tangle w') = milestones (tangle w) /\
  isPruning w' = isPruning w /\
  (forall x, x ∉ ids -> messages (tangle w') !! x = messages (tangle w) !! x).
Proof.
  intros ids w'. subst w'. rewrite pruneUnconfirmedTransactions_exec. fold ids.
  destruct (pruneMessages_frame ids w) as ((d & Hd & HF) & Hsi & Hms & Hip & _ & Hkeep & _).
  cbn. repeat split; try done.
  exists (d ++ [DeleteUnconfirmedMessages index]). split.
  - by rewrite Hd, app_assoc.
  - apply Forall_app. split.
    + eapply Forall_impl; [exact HF|]. intros e He. by destruct e.
    + by repeat constructor.
Qed.



(** *** The milestone loop *)

(** One iteration of the loop of pruneDatabase that is not cut short by the
    abort signal. *)
Lemma pruneMilestones_step (env : Env) (fuel : nat) (mi T : Z)
    (abortSignal : list bool) (si : SnapshotInfo) (w : World) :
  (mi <=? T) = true ->
  abortFired abortSignal = false ->
  pruneMilestones env (S fuel) mi T abortSignal si w =
    let next := pruneMilestones env fuel (add mi 1) T (tail abortSignal) in
    let w1 := St.exec (pruneUnconfirmedTransactions mi) w in
    match milestones (tangle w1) !! mi with
    | None => next si w1
    | Some cachedMs =>
        match TraverseParents env (tangle w1) (MessageID cachedMs) with
        | inl _ => next si w1
        | inr msgs =>
            next (withPruningIndex mi si)
                 (completeMilestone mi (withPruningIndex mi si) msgs w1)
        end
    end.
Proof.
  intros Hle Hab. cbn [pruneMilestones]. rewrite Hle, Hab.
  rewrite run_bind. cbv beta zeta.
  rewrite run_bind. change (St.exec St.get ?x) with x.
  change (St.eval St.get ?x) with x. cbv beta.
  destruct (milestones _ !! mi) as [cachedMs|]; [|reflexivity].
  destruct (TraverseParents _ _ _) as [err|msgs]; [reflexivity|].
  rewrite !run_bind. reflexivity.
Qed.

Lemma completeMilestone_frame (mi : Z) (si' : SnapshotInfo) (msgs : list Hash)
    (w : World) :
  let w' := completeMilestone mi si' msgs w in
  (exists d, trace w' = trace w ++ d ++
               [DeleteLedgerDiffForMilestone mi; DeleteMilestone mi;
                SetSnapshotInfo si'; PruningMilestoneIndexChanged mi]
             /\ Forall (deletesOf msgs) d) /\
  snapshotInfo (tangle w') = Some si' /\
  milestones (tangle w') = delete mi (milestones (tangle w)) /\
  isPruning w' = isPruning w.
Proof.
  destruct (pruneMessages_frame msgs w) as ((d & Hd & HF) & _ & Hms & Hip & _).
  unfold completeMilestone. unfold St.exec in Hd, Hms, Hip. run_pruning.
  repeat split; try congruence.
  exists d. split; [|exact HF].
  rewrite Hd, <- !app_assoc. reflexivity.
Qed.

Lemma deletesOf_isDeletion (ids : list Hash) (e : Effect) :
  deletesOf ids e -> isDeletion e = true.
Proof. by destruct e. Qed.

Lemma unconfirmedEvent_isDeletion (i : Z) (ids : list Hash) (e : Effect) :
  unconfirmedEvent i ids e -> isDeletion e = true.
Proof. by destruct e. Qed.

Lemma isDeletion_loopEvent (ms : gmap Z Milestone) (epi : Z) (e : Effect) :
  isDeletion e = true -> loopEvent ms epi e.
Proof. by destruct e. Qed.

Lemma loopEvent_mono (ms ms' : gmap Z Milestone) (epi : Z) (e : Effect) :
  (forall i, is_Some (ms !! i) -> is_Some (ms' !! i)) ->
  loopEvent ms epi e -> loopEvent ms' epi e.
Proof. intros Hsub. destruct e; cbn; intuition. Qed.

Lemma lastCompleted_app (d1 d2 : list Effect) (start : Z) :
  lastCompleted (d1 ++ d2) start = lastCompleted d2 (lastCompleted d1 start).
Proof. apply fold_left_app. Qed.

Lemma replayInfo_app (d1 d2 : list Effect) (init : option SnapshotInfo) :
  replayInfo (d1 ++ d2) init = replayInfo d2 (replayInfo d1 init).
Proof. apply fold_left_app. Qed.

(** Deletions neither persist a SnapshotInfo nor complete a milestone. *)
Lemma deletions_quiet (d : list Effect) :
  Forall (fun e => isDeletion e = true) d ->
  (forall start, lastCompleted d start = start) /\
  (forall init, replayInfo d init = init).
Proof.
  induction 1 as [|e d He _ [IH1 IH2]]; [done|].
  split; intros x; cbn; destruct e; try discriminate He; auto.
Qed.

(** The milestone loop as a whole, for any fuel and any abort signal: the
    persisted SnapshotInfo stays the one the loop holds, with only its
    PruningIndex moved to the last completed milestone. *)
Lemma pruneMilestones_run (env : Env) (T : Z) (fuel : nat) :
  forall (mi : Z) (abortSignal : list bool) (si : SnapshotInfo) (w : World),
    snapshotInfo (tangle w) = Some si ->
    let w' := St.exec (pruneMilestones env fuel mi T abortSignal si) w in
    exists d,
      trace w' = trace w ++ d /\
      snapshotInfo (tangle w') =
        Some (withPruningIndex (lastCompleted d (PruningIndex si)) si) /\
      replayInfo d (Some si) = snapshotInfo (tangle w') /\
      (forall i, is_Some (milestones (tangle w') !! i) ->
                 is_Some (milestones (tangle w) !! i)) /\
      isPruning w' = isPruning w /\
      Forall (loopEvent (milestones (tangle w)) (EntryPointIndex si)) d.
Proof.
  assert (Hid : forall si : SnapshotInfo, withPruningIndex (PruningIndex si) si = si)
    by (by intros []).
  assert (Hstop : forall (si : SnapshotInfo) (w : World),
            snapshotInfo (tangle w) = Some si ->
            exists d, trace w = trace w ++ d /\
              snapshotInfo (tangle w) =
                Some (withPruningIndex (lastCompleted d (PruningIndex si)) si) /\
              replayInfo d (Some si) = snapshotInfo (tangle w) /\
              (forall i, is_Some (milestones (tangle w) !! i) ->
                         is_Some (milestones (tangle w) !! i)) /\
              isPruning w = isPruning w /\
              Forall (loopEvent (milestones (tangle w)) (EntryPointIndex si)) d).
  { intros si w Hsi. exists []. cbn. rewrite app_nil_r, Hid. by repeat split. }
  induction fuel as [|fuel IH]; intros mi abortSignal si w Hsi; cbv zeta.
  { unfold St.exec. cbn [pruneMilestones].
    destruct (mi <=? T); by apply Hstop. }
  destruct (mi <=? T) eqn:Hle;
    [|unfold St.exec; cbn [pruneMilestones]; rewrite Hle; by apply Hstop].
  destruct (abortFired abortSignal) eqn:Hab;
    [unfold St.exec; cbn [pruneMilestones]; rewrite Hle, Hab; by apply Hstop|].
  unfold St.exec. rewrite (pruneMilestones_step _ _ _ _ _ _ _ Hle Hab). cbv zeta.
  destruct (pruneUnconfirmedTransactions_frame mi w)
    as ((d1 & Hd1 & HF1) & Hsi1 & Hms1 & Hip1 & _).
  set (w1 := St.exec (pruneUnconfirmedTransactions mi) w) in *.
  clearbody w1.
  assert (HD1 : Forall (fun e => isDeletion e = true) d1).
  { eapply Forall_impl; [exact HF1|]. intros e. apply unconfirmedEvent_isDeletion. }
  destruct (deletions_quiet d1 HD1) as [Hlc1 Hrp1].
  assert (Hskip : forall r, r = (pruneMilestones env fuel (add mi 1) T
                                   (tail abortSignal) si w1).2 ->
    exists d, trace r = trace w ++ d /\
      snapshotInfo (tangle r) =
        Some (withPruningIndex (lastCompleted d (PruningIndex si)) si) /\
      replayInfo d (Some si) = snapshotInfo (tangle r) /\
      (forall i, is_Some (milestones (tangle r) !! i) ->
                 is_Some (milestones (tangle w) !! i)) /\
      isPruning r = isPruning w /\
      Forall (loopEvent (milestones (tangle w)) (EntryPointIndex si)) d).
  { intros r ->.
    destruct (IH (add mi 1) (tail abortSignal) si w1) as (d2 & Hd2 & Hs2 & Hr2 & Hm2 & Hp2 & HF2);
      [congruence|].
    unfold St.exec in *. exists (d1 ++ d2).
    rewrite lastCompleted_app, replayInfo_app, Hlc1, Hrp1.
    repeat split; try congruence.
    - by rewrite Hd2, Hd1, app_assoc.
    - intros i Hi. rewrite <- Hms1. by apply Hm2.
    - apply Forall_app. split.
      + eapply Forall_impl; [exact HD1|]. intros e. apply isDeletion_loopEvent.
      + by rewrite <- Hms1. }
  destruct (milestones (tangle w1) !! mi) as [cachedMs|] eqn:Hmi; [|by apply Hskip].
  destruct (TraverseParents env (tangle w1) (MessageID cachedMs)) as [err|msgs];
    [by apply Hskip|].
  set (si2 := withPruningIndex mi si).
  destruct (completeMilestone_frame mi si2 msgs w1)
    as ((dm & Hdm & HFm) & Hsi2 & Hms2 & Hip2).
  set (w2 := completeMilestone mi si2 msgs w1) in *.
  clearbody w2.
  destruct (IH (add mi 1) (tail abortSignal) si2 w2 Hsi2)
    as (d3 & Hd3 & Hs3 & Hr3 & Hm3 & Hp3 & HF3).
  unfold St.exec in *.
  assert (HDm : Forall (fun e => isDeletion e = true) dm).
  { eapply Forall_impl; [exact HFm|]. intros e. apply deletesOf_isDeletion. }
  destruct (deletions_quiet dm HDm) as [Hlcm Hrpm].
  exists (d1 ++ (dm ++ [DeleteLedgerDiffForMilestone mi; DeleteMilestone mi;
                        SetSnapshotInfo si2; PruningMilestoneIndexChanged mi]) ++ d3).
  rewrite !lastCompleted_app, !replayInfo_app, Hlc1, Hrp1, Hlcm, Hrpm. cbn.
  assert (Hsub : forall i, is_Some (milestones (tangle w2) !! i) ->
                           is_Some (milestones (tangle w) !! i)).
  { intros i. rewrite Hms2, <- Hms1. intros [x Hx].
    apply lookup_delete_Some in Hx as [_ Hx]. by exists x. }
  repeat split.
  - rewrite Hd3, Hdm, Hd1, <- !app_assoc. reflexivity.
  - rewrite Hs3. by destruct si.
  - exact Hr3.
  - intros i Hi. apply Hsub. by apply Hm3.
  - congruence.
  - apply Forall_app. split.
    { eapply Forall_impl; [exact HD1|]. intros e. apply isDeletion_loopEvent. }
    apply Forall_app. split.
    + apply Forall_app. split.
      { eapply Forall_impl; [exact HDm|]. intros e. apply isDeletion_loopEvent. }
      assert (Hsome : is_Some (milestones (tangle w) !! mi))
        by (rewrite <- Hms1; eauto).
      repeat constructor; cbn; done.
    + eapply Forall_impl; [exact HF3|]. intros e. apply loopEvent_mono, Hsub.
Qed.

(** *** pruneDatabase *)

(** A call that fails a guard returns without touching the world. *)
Lemma pruneDatabase_guarded (env : Env) (fuel : nat) (targetIndex : Z)
    (abortSignal : list bool) (w : World) (info : SnapshotInfo) :
  snapshotInfo (tangle w) = Some info ->
  ~ guardsPass env info targetIndex ->
  St.exec (pruneDatabase env fuel targetIndex abortSignal) w = w.
Proof.
  intros Hsi Hg. unfold guardsPass, clampedTarget in Hg.
  unfold St.exec, pruneDatabase. rewrite run_bind.
  change (St.eval St.get w) with w. change (St.exec St.get w) with w.
  cbv beta. rewrite Hsi.
  destruct (SnapshotIndex info <? _) eqn:H1; [reflexivity|].
  cbv zeta.
  destruct (PruningIndex info >=? _) eqn:H2; [reflexivity|].
  destruct (_ >? _) eqn:H3 in |- *; [reflexivity|].
  exfalso. apply Hg. repeat split; assumption.
Qed.

(** A call that passes the guards but gets no entry points only sets and
    clears the flag. *)
Lemma pruneDatabase_no_entry_points (env : Env) (fuel : nat) (targetIndex : Z)
    (abortSignal : list bool) (w : World) (info : SnapshotInfo) (err : error) :
  snapshotInfo (tangle w) = Some info ->
  guardsPass env info targetIndex ->
  getSolidEntryPoints env (tangle w) (clampedTarget env info targetIndex)
    = inl err ->
  pruneDatabase env fuel targetIndex abortSignal w =
    (Returned (Some err),
     mkWorld (tangle w) false
       (trace w ++ [SetIsPruning true; SetIsPruning false])).
Proof.
  intros Hsi (H1 & H2 & H3) Hsep. unfold clampedTarget in *.
  unfold pruneDatabase. rewrite run_bind.
  change (St.eval St.get w) with w. change (St.exec St.get w) with w.
  cbv beta. rewrite Hsi, H1. cbv zeta. rewrite H2, H3, Hsep.
  run_pruning. by rewrite <- app_assoc.
Qed.

(** A call that passes the guards and gets the new entry points runs
    phase 1, then the milestone loop from PruningIndex + 1. *)
Lemma pruneDatabase_running (env : Env) (fuel : nat) (targetIndex : Z)
    (abortSignal : list bool) (w : World) (info : SnapshotInfo)
    (news : list (Hash * Z)) :
  snapshotInfo (tangle w) = Some info ->
  guardsPass env info targetIndex ->
  let T := clampedTarget env info targetIndex in
  getSolidEntryPoints env (tangle w) T = inr news ->
  pruneDatabase env fuel targetIndex abortSignal w =
    finish (pruneMilestones env fuel (add (PruningIndex info) 1) T abortSignal
              (withEntryPointIndex T info) (phase1 T info news w)).
Proof.
  intros Hsi (H1 & H2 & H3) T Hsep. subst T. unfold clampedTarget in *.
  unfold pruneDatabase. rewrite run_bind.
  change (St.eval St.get w) with w. change (St.exec St.get w) with w.
  cbv beta. rewrite Hsi, H1. cbv zeta. rewrite H2, H3, Hsep.
  repeat (rewrite run_bind || rewrite eval_bind || rewrite exec_bind).
  unfold phase1, finish.
  change (PruningIndex (withEntryPointIndex ?t info)) with (PruningIndex info).
  match goal with
  | |- context [St.eval (pruneMilestones ?e ?f ?m ?t ?a ?s) ?x] =>
      set (loop := pruneMilestones e f m t a s);
      set (w0 := x)
  end.
  change (St.eval loop w0) with (loop w0).1.
  change (St.exec loop w0) with (loop w0).2.
  destruct (loop w0) as [l w1]. cbn [fst snd].
  destruct l; reflexivity.
Qed.

Lemma addSolidEntryPoints_frame (news : list (Hash * Z)) (w : World) :
  let w' := St.exec (addSolidEntryPoints news) w in
  trace w' = trace w
             ++ map (fun p : Hash * Z => SolidEntryPointsAdd p.1 p.2) news /\
  snapshotInfo (tangle w') = snapshotInfo (tangle w) /\
  milestones (tangle w') = milestones (tangle w) /\
  isPruning w' = isPruning w.
Proof.
  revert w. induction news as [|[h i] news IH]; intros w.
  { cbn. by rewrite app_nil_r. }
  cbn [addSolidEntryPoints]. cbv zeta. rewrite exec_bind.
  destruct (IH (St.exec (solidEntryPointsAdd h i) w)) as (Ht & Hs & Hm & Hp).
  rewrite Ht, Hs, Hm, Hp. run_pruning. by rewrite <- app_assoc.
Qed.

Lemma unconfirmedEvent_deletionAt (index : Z) (ids : list Hash) (e : Effect) :
  unconfirmedEvent index ids e -> deletionAt index e.
Proof.
  destruct e; cbn; try done; intros H; (split; [done|]); cbn; try done.
  intros i [= <-]. exact H.
Qed.

Lemma phase1_frame (T : Z) (info : SnapshotInfo) (news : list (Hash * Z))
    (w : World) :
  let w0 := phase1 T info news w in
  (exists du, trace w0 = trace w ++ phase1Calls T info news ++ du /\
              Forall (deletionAt (PruningIndex info)) du) /\
  snapshotInfo (tangle w0) = Some (withEntryPointIndex T info) /\
  milestones (tangle w0) = milestones (tangle w) /\
  isPruning w0 = true.
Proof.
  unfold phase1.
  set (wa := St.exec (setIsPruning true) w).
  set (wb := St.exec resetSolidEntryPoints wa).
  destruct (addSolidEntryPoints_frame news wb) as (Ht & Hs & Hm & Hp).
  set (wc := St.exec (addSolidEntryPoints news) wb) in *.
  set (wd := St.exec (setSnapshotInfo (withEntryPointIndex T info))
               (St.exec storeSolidEntryPoints wc)).
  destruct (pruneUnconfirmedTransactions_frame (PruningIndex info) wd)
    as ((du & Hdu & HFu) & Hsu & Hmu & Hpu & _).
  cbv zeta. rewrite Hsu, Hmu, Hpu. repeat split.
  - exists du. split.
    + rewrite Hdu. subst wd. run_pruning. rewrite Ht. subst wb wa. run_pruning.
      unfold phase1Calls. rewrite <- !app_assoc. reflexivity.
    + eapply Forall_impl; [exact HFu|]. intros e.
      apply unconfirmedEvent_deletionAt.
  - subst wd. run_pruning. exact Hm.
  - subst wd. run_pruning. exact Hp.
Qed.

(** C2, as stated, fails on the code: with the numbers of scenario S3 the
    first guard already returns NotEnoughHistory (100 < 50 + 50 + 1); the
    clamp is not reached and NoPruningNeeded is not returned. On the
    unsigned index the bound of the clamp would moreover be 2^32 - 1, not
    -1, and leave the target at 200. *)
Lemma scenario_S3_is_not_NoPruningNeeded :
  snapshotInfo (tangle worldS3) = Some (mkSnapshotInfo 100 50 50) /\
  SolidEntryPointCheckThresholdPast envS3 = 50 /\
  St.eval (pruneDatabase envS3 100 200 []) worldS3
    = Returned (Some (Wrapf ErrNotEnoughHistory 101 200)) /\
  Cause (Wrapf ErrNotEnoughHistory 101 200) <> ErrNoPruningNeeded /\
  sub (sub (sub 100 50) AdditionalPruningThreshold) 1 = 4294967295 /\
  clampedTarget envS3 (mkSnapshotInfo 100 50 50) 200 = 200.
Proof.
  split; [reflexivity|]. split; [reflexivity|]. split; [reflexivity|].
  split; [cbn; discriminate|]. split; reflexivity.
Qed.

(** C2, amended. With SnapshotInfo = {SnapshotIndex=100, PruningIndex=50,
    EntryPointIndex=50}, SolidEntryPointCheckThresholdPast=50,
    AdditionalPruningThreshold=50 and targetIndex=200, pruneDatabase returns
    the NotEnoughHistory error of its first guard, since SnapshotIndex is
    below 50 + 50 + 1 = 101, without clamping and without touching the
    store. *)
Theorem scenario_S3_not_enough_history (env : Env) (fuel : nat)
    (abortSignal : list bool) (w : World) :
  snapshotInfo (tangle w) = Some (mkSnapshotInfo 100 50 50) ->
  SolidEntryPointCheckThresholdPast env = 50 ->
  AdditionalPruningThreshold = 50 /\
  pruneDatabase env fuel 200 abortSignal w
    = (Returned (Some (Wrapf ErrNotEnoughHistory 101 200)), w) /\
  Cause (Wrapf ErrNotEnoughHistory 101 200) = ErrNotEnoughHistory.
Proof.
  intros Hsi Hsep. split; [reflexivity|]. split; [|reflexivity].
  unfold pruneDatabase. rewrite run_bind.
  change (St.eval St.get w) with w. change (St.exec St.get w) with w.
  cbv beta. rewrite Hsi, Hsep. reflexivity.
Qed.

Lemma scenario_S3_not_enough_history_witness :
  snapshotInfo (tangle worldS3) = Some (mkSnapshotInfo 100 50 50) /\
  SolidEntryPointCheckThresholdPast envS3 = 50 /\
  pruneDatabase envS3 0 200 [] worldS3
    = (Returned (Some (Wrapf ErrNotEnoughHistory 101 200)), worldS3).
Proof.
  split; [reflexivity|]. split; [reflexivity|].
  apply (scenario_S3_not_enough_history envS3 0 [] worldS3); reflexivity.
Defined.

(** *** The order of persisting and deleting *)







(** What the end of pruneDatabase adds to the trace. *)
Lemma finish_frame (l : LoopResult) (w1 : World) :
  tangle (finish (l, w1)).2 = tangle w1 /\
  exists tl, trace (finish (l, w1)).2 = trace w1 ++ tl /\
    Forall (fun e => isDeletion e = false /\ indexOf e = None) tl.
Proof.
  destruct l; cbn; (split; [reflexivity|]).
  - exists [RunGarbageCollection; SetIsPruning false].
    rewrite <- app_assoc. split; [reflexivity|]. by repeat constructor.
  - exists [SetIsPruning false]. split; [reflexivity|]. by repeat constructor.
  - exists []. rewrite app_nil_r. by split.
Qed.

Lemma guardsPass_dec (env : Env) (info : SnapshotInfo) (targetIndex : Z) :
  guardsPass env info targetIndex \/ ~ guardsPass env info targetIndex.
Proof.
  unfold guardsPass.
  destruct (_ <? _); [right; intros (H & _); discriminate H|].
  destruct (_ >=? _); [right; intros (_ & H & _); discriminate H|].
  destruct (_ >? _); [right; intros (_ & _ & H); discriminate H|].
  by left.
Qed.



(** *** Abort *)

Lemma add_1_small (mi T : Z) :
  0 <= mi -> mi + 1 <= T -> T <= MaxIndex -> add mi 1 = mi + 1.
Proof.
  intros H0 H1 HT. unfold add, wrap. apply Z.mod_small.
  unfold MaxIndex in HT. lia.
Qed.





(** The milestone loop ends within targetIndex - milestoneIndex + 1
    iterations, unless the target is the largest index, where the increment
    wraps around. *)
Lemma pruneMilestones_terminates (env : Env) (T : Z) :
  T < MaxIndex ->
  forall (fuel : nat) (mi : Z) (abortSignal : list bool) (si : SnapshotInfo)
         (w : World),
    0 <= mi ->
    T - mi + 1 <= Z.of_nat fuel ->
    (pruneMilestones env fuel mi T abortSignal si w).1 <> LoopOutOfFuel.
Proof.
  intros HT. induction fuel as [|fuel IH]; intros mi abortSignal si w H0 Hfuel.
  { cbn [pruneMilestones].
    replace (mi <=? T) with false by (symmetry; apply Z.leb_gt; lia). done. }
  destruct (mi <=? T) eqn:Hle;
    [|cbn [pruneMilestones]; rewrite Hle; done].
  destruct (abortFired abortSignal) eqn:Hab;
    [cbn [pruneMilestones]; rewrite Hle, Hab; done|].
  apply Z.leb_le in Hle as Hle'.
  rewrite (pruneMilestones_step _ _ _ _ _ _ _ Hle Hab). cbv zeta.
  rewrite (add_1_small mi MaxIndex) by lia.
  destruct (milestones _ !! mi) as [cachedMs|]; [|apply IH; lia].
  destruct (TraverseParents _ _ _); apply IH; lia.
Qed.

(** With that many iterations allowed, a call of pruneDatabase returns. *)
Lemma pruneDatabase_returns (env : Env) (fuel : nat) (targetIndex : Z)
    (abortSignal : list bool) (w : World) (info : SnapshotInfo) :
  snapshotInfo (tangle w) = Some info ->
  0 <= PruningIndex info ->
  clampedTarget env info targetIndex < MaxIndex ->
  clampedTarget env info targetIndex - PruningIndex info <= Z.of_nat fuel ->
  exists err,
    St.eval (pruneDatabase env fuel targetIndex abortSignal) w = Returned err.
Proof.
  intros Hsi H0 HT Hfuel. set (T := clampedTarget env info targetIndex) in *.
  destruct (guardsPass_dec env info targetIndex) as [Hg|Hg].
  2:{ unfold guardsPass, clampedTarget in Hg.
      unfold St.eval, pruneDatabase. rewrite run_bind.
      change (St.eval St.get w) with w. change (St.exec St.get w) with w.
      cbv beta. rewrite Hsi.
      destruct (SnapshotIndex info <? _) eqn:H1; [by eexists|].
      cbv zeta.
      destruct (PruningIndex info >=? _) eqn:H2; [by eexists|].
      destruct (_ >? _) eqn:H3 in |- *; [by eexists|].
      exfalso. apply Hg. repeat split; assumption. }
  destruct (getSolidEntryPoints env (tangle w) T) as [err|news] eqn:Hsep.
  { unfold St.eval.
    rewrite (pruneDatabase_no_entry_points _ _ _ _ _ _ _ Hsi Hg Hsep).
    by eexists. }
  unfold St.eval.
  rewrite (pruneDatabase_running env fuel targetIndex abortSignal w info news Hsi Hg Hsep).
  fold T.
  assert (Hlt : PruningIndex info < T).
  { destruct Hg as (_ & Hge & _). fold T in Hge.
    rewrite Z.geb_leb in Hge. apply Z.leb_gt in Hge. lia. }
  pose proof (pruneMilestones_terminates env T HT fuel
                (add (PruningIndex info) 1) abortSignal
                (withEntryPointIndex T info) (phase1 T info news w)) as Hterm.
  rewrite (add_1_small _ T) in * by lia.
  specialize (Hterm ltac:(lia) ltac:(lia)).
  destruct (pruneMilestones env fuel _ T abortSignal _ _) as [l w1].
  cbn [fst] in Hterm. destruct l; cbn; by eauto.
Qed.




(** *** Milestones that are not in the store *)

Lemma lastCompleted_loopEvent (ms : gmap Z Milestone) (epi : Z) (d : list Effect) :
  Forall (loopEvent ms epi) d ->
  forall start,
    lastCompleted d start = start \/ is_Some (ms !! lastCompleted d start).
Proof.
  unfold lastCompleted.
  induction 1 as [|e d He _ IH]; intros start; [by left|].
  cbn. destruct e; try apply IH.
  destruct (IH index) as [->|Hs]; right; [exact He|exact Hs].
Qed.

(** No run of pruneDatabase persists as PruningIndex the index of a
    milestone that is not in the store. *)
Lemma pruneDatabase_never_sets_absent (env : Env) (fuel : nat)
    (targetIndex : Z) (abortSignal : list bool) (w : World)
    (info : SnapshotInfo) (m : Z) :
  snapshotInfo (tangle w) = Some info ->
  milestones (tangle w) !! m = None ->
  PruningIndex info <> m ->
  PruningIndex <$>
    snapshotInfo (tangle (St.exec (pruneDatabase env fuel targetIndex abortSignal) w))
  <> Some m.
Proof.
  intros Hsi Hm Hne.
  destruct (guardsPass_dec env info targetIndex) as [Hg|Hg].
  2:{ rewrite (pruneDatabase_guarded _ _ _ _ _ _ Hsi Hg), Hsi. cbn. congruence. }
  set (T := clampedTarget env info targetIndex).
  destruct (getSolidEntryPoints env (tangle w) T) as [err|news] eqn:Hsep.
  { unfold St.exec.
    rewrite (pruneDatabase_no_entry_points _ _ _ _ _ _ _ Hsi Hg Hsep). cbn.
    rewrite Hsi. cbn. congruence. }
  unfold St.exec.
  rewrite (pruneDatabase_running env fuel targetIndex abortSignal w info news Hsi Hg Hsep).
  fold T.
  destruct (phase1_frame T info news w) as (_ & Hs0 & Hm0 & _).
  set (w0 := phase1 T info news w) in *. clearbody w0.
  destruct (pruneMilestones_run env T fuel (add (PruningIndex info) 1)
              abortSignal (withEntryPointIndex T info) w0 Hs0)
    as (dl & _ & Hs1 & _ & _ & _ & HFl).
  unfold St.exec in Hs1.
  destruct (pruneMilestones env fuel _ T abortSignal _ w0) as [l w1].
  destruct (finish_frame l w1) as (-> & _). cbn [snd] in Hs1. rewrite Hs1. cbn.
  destruct (lastCompleted_loopEvent _ _ _ HFl (PruningIndex info)) as [->|[x Hx]].
  - congruence.
  - intros [= Heq]. rewrite Heq, Hm0, Hm in Hx. discriminate Hx.
Qed.

(** C6, as stated, fails on the code. Milestone 801 of the pruning range
    (800, 851] is not in the store; the run skips it, completes the later
    milestones and leaves PruningIndex at 851, beyond 801. A second run with
    the same target finds nothing to prune and leaves the store as it is:
    milestone 801 is not retried. *)
Lemma absent_milestone_is_passed_over :
  let r1 := pruneDatabase sampleEnv 60 851 [] sampleWorld in
  let r2 := pruneDatabase sampleEnv 60 851 [] r1.2 in
  snapshotInfo (tangle sampleWorld) = Some (mkSnapshotInfo 1000 800 800) /\
  milestones (tangle sampleWorld) !! 801 = None /\
  r1.1 = Returned None /\
  snapshotInfo (tangle r1.2) = Some (mkSnapshotInfo 1000 851 851) /\
  r2.1 = Returned (Some (Wrapf ErrNoPruningNeeded 851 851)) /\
  r2.2 = r1.2.
Proof. vm_compute. repeat split. Qed.

(** C6, amended. The iteration of pruneDatabase for a milestone index m
    whose record is not in the store only prunes the unconfirmed messages of
    m: it persists no SnapshotInfo and the loop goes on with m + 1, holding
    the same SnapshotInfo; and however the loop goes on from there, the
    persisted PruningIndex is never m. *)
Theorem absent_milestone_is_skipped (env : Env) (fuel : nat) (m T : Z)
    (abortSignal : list bool) (si : SnapshotInfo) (w : World) :
  (m <=? T) = true ->
  abortFired abortSignal = false ->
  milestones (tangle w) !! m = None ->
  snapshotInfo (tangle w) = Some si ->
  PruningIndex si <> m ->
  let w1 := St.exec (pruneUnconfirmedTransactions m) w in
  pruneMilestones env (S fuel) m T abortSignal si w
    = pruneMilestones env fuel (add m 1) T (tail abortSignal) si w1 /\
  snapshotInfo (tangle w1) = Some si /\
  (exists d1, trace w1 = trace w ++ d1 /\ Forall (deletionAt m) d1) /\
  forall fuel',
    PruningIndex <$>
      snapshotInfo (tangle (St.exec (pruneMilestones env fuel' m T abortSignal si) w))
    <> Some m.
Proof.
  intros Hle Hab Hm Hsi Hne w1.
  destruct (pruneUnconfirmedTransactions_frame m w)
    as ((d1 & Hd1 & HF1) & Hs1 & Hm1 & _ & _).
  fold w1 in Hd1, Hs1, Hm1.
  split; [|split; [congruence|split]].
  - rewrite (pruneMilestones_step _ _ _ _ _ _ _ Hle Hab). cbv zeta.
    fold w1. by rewrite Hm1, Hm.
  - exists d1. split; [exact Hd1|].
    eapply Forall_impl; [exact HF1|]. intros e. apply unconfirmedEvent_deletionAt.
  - intros fuel'.
    destruct (pruneMilestones_run env T fuel' m abortSignal si w Hsi)
      as (d & _ & Hs & _ & _ & _ & HF).
    rewrite Hs. cbn.
    destruct (lastCompleted_loopEvent _ _ _ HF (PruningIndex si)) as [->|[x Hx]].
    + congruence.
    + intros [= Heq]. rewrite Heq, Hm in Hx. discriminate Hx.
Qed.

(** *** The theorems at the sample store *)




Lemma absent_milestone_is_skipped_witness :
  let si := mkSnapshotInfo 1000 800 851 in
  let w := phase1 851 (mkSnapshotInfo 1000 800 800) [("m851"%string, 851)]
             sampleWorld in
  milestones (tangle w) !! 801 = None /\
  snapshotInfo (tangle w) = Some si /\
  pruneMilestones sampleEnv 51 801 851 [] si w
    = pruneMilestones sampleEnv 50 (add 801 1) 851 [] si
        (St.exec (pruneUnconfirmedTransactions 801) w).
Proof.
  split; [reflexivity|]. split; [reflexivity|].
  apply (absent_milestone_is_skipped sampleEnv 50 801 851 []
           (mkSnapshotInfo 1000 800 851)
           (phase1 851 (mkSnapshotInfo 1000 800 800) [("m851"%string, 851)]
              sampleWorld)).
  - reflexivity.
  - reflexivity.
  - reflexivity.
  - reflexivity.
  - cbn. lia.
Defined.

(** Scenario S5 of the spec on the sample store: the abort is seen after
    milestone 803 completed; PruningIndex is 803 and EntryPointIndex 851. A
    second call with the same target then fails the entry point guard. *)
Example scenario_S5_abort_after_803 :
  let r1 := pruneDatabase sampleEnv 60 851 [false; false; false; true] sampleWorld in
  let r2 := pruneDatabase sampleEnv 60 851 [] r1.2 in
  r1.1 = Returned (Some ErrPruningAborted) /\
  snapshotInfo (tangle r1.2) = Some (mkSnapshotInfo 1000 803 851) /\
  lastCompleted (trace r1.2) 800 = 803 /\
  milestones (tangle r1.2) = {[ 851 := mkMilestone "m851" ]} /\
  isPruning r1.2 = false /\
  r2.1 = Returned (Some (Wrapf ErrNotEnoughHistory 902 851)) /\
  r2.2 = r1.2.
Proof. vm_compute. repeat split. Qed.

(** *** What pruning messages removes *)

Lemma onlyMessagesRemoved_refl (t : Tangle) : onlyMessagesRemoved t t.
Proof. by repeat split. Qed.

Lemma onlyMessagesRemoved_trans (t1 t2 t3 : Tangle) :
  onlyMessagesRemoved t1 t2 -> onlyMessagesRemoved t2 t3 ->
  onlyMessagesRemoved t1 t3.
Proof.
  intros (A1 & A2 & A3 & A4 & A5 & A6 & A7 & A8 & A9)
         (B1 & B2 & B3 & B4 & B5 & B6 & B7 & B8 & B9).
  repeat split; try congruence; by etrans.
Qed.

Lemma withoutMessage_removed (x : Hash) (msg : Message) (t : Tangle) :
  onlyMessagesRemoved t (withoutMessage x msg t) /\
  ((Parent1MessageID msg, x) ∉ children (withoutMessage x msg t)) /\
  ((Parent2MessageID msg, x) ∉ children (withoutMessage x msg t)) /\
  (forall c, (x, c) ∉ children (withoutMessage x msg t)).
Proof.
  unfold withoutMessage, onlyMessagesRemoved. cbn.
  split; [|split; [|split]].
  - split; [apply delete_subseteq|]. split; [|done].
    intros pc Hpc. apply elem_of_filter in Hpc as [_ Hpc].
    apply elem_of_difference in Hpc as [Hpc _].
    by apply elem_of_difference in Hpc as [Hpc _].
  - intros Hin. apply elem_of_filter in Hin as [_ Hin].
    apply elem_of_difference in Hin as [Hin _].
    apply elem_of_difference in Hin as [_ Hin].
    apply Hin. by apply elem_of_singleton.
  - intros Hin. apply elem_of_filter in Hin as [_ Hin].
    apply elem_of_difference in Hin as [_ Hin].
    apply Hin. by apply elem_of_singleton.
  - intros c Hin. apply elem_of_filter in Hin as [Hin _]. by apply Hin.
Qed.

Lemma pruneMessages_removed (ids : list Hash) (w : World) :
  let w' := St.exec (pruneMessages ids) w in
  onlyMessagesRemoved (tangle w) (tangle w') /\
  forall x msg,
    x ∈ ids -> messages (tangle w) !! x = Some msg ->
    ((Parent1MessageID msg, x) ∉ children (tangle w')) /\
    ((Parent2MessageID msg, x) ∉ children (tangle w')) /\
    (forall c, (x, c) ∉ children (tangle w')).
Proof.
  revert w. induction ids as [|y ids IH]; intros w; cbv zeta.
  { split; [apply onlyMessagesRemoved_refl|]. intros x msg Hx.
    by apply elem_of_nil in Hx. }
  rewrite pruneMessages_cons.
  destruct (messages (tangle w) !! y) as [m|] eqn:Hy.
  - fold (withoutMessage y m (tangle w)).
    set (w1 := mkWorld (withoutMessage y m (tangle w)) _ _).
    destruct (IH w1) as [Hrem Hrefs].
    destruct (withoutMessage_removed y m (tangle w)) as (H1 & Hp1 & Hp2 & Hc).
    split; [by eapply onlyMessagesRemoved_trans|].
    intros x msg Hx Hmsg.
    destruct Hrem as (_ & Hsub & _).
    destruct (decide (x = y)) as [->|Hne].
    + rewrite Hy in Hmsg. injection Hmsg as <-.
      split; [|split].
      * intros Hin. by apply Hsub, Hp1 in Hin.
      * intros Hin. by apply Hsub, Hp2 in Hin.
      * intros c Hin. by apply Hsub, Hc in Hin.
    + apply elem_of_cons in Hx as [?|Hx]; [done|].
      apply (Hrefs x msg Hx). cbn. by rewrite lookup_delete_ne.
  - destruct (IH w) as [Hrem Hrefs]. split; [exact Hrem|].
    intros x msg Hx Hmsg. apply elem_of_cons in Hx as [->|Hx]; [congruence|].
    by apply Hrefs.
Qed.

(** X14. pruneMessages only removes messages and child references. Every
    message of the set is gone afterwards, every other message is as before,
    and of a message that was stored neither the references from its two
    parents nor its own children entries remain. The number it returns is
    the size of the set, also when none of the messages was stored. *)
Theorem pruneMessages_effect (ids : list Hash) (w : World) :
  let r := pruneMessages ids w in
  r.1 = length ids /\
  onlyMessagesRemoved (tangle w) (tangle r.2) /\
  (forall x, x ∈ ids -> messages (tangle r.2) !! x = None) /\
  (forall x, x ∉ ids -> messages (tangle r.2) !! x = messages (tangle w) !! x) /\
  (forall x msg,
     x ∈ ids -> messages (tangle w) !! x = Some msg ->
     ((Parent1MessageID msg, x) ∉ children (tangle r.2)) /\
     ((Parent2MessageID msg, x) ∉ children (tangle r.2)) /\
     (forall c, (x, c) ∉ children (tangle r.2))).
Proof.
  cbv zeta.
  change (pruneMessages ids w).1 with (St.eval (pruneMessages ids) w).
  change (pruneMessages ids w).2 with (St.exec (pruneMessages ids) w).
  destruct (pruneMessages_frame ids w) as (_ & _ & _ & _ & Hdel & Hkeep & _).
  destruct (pruneMessages_removed ids w) as [Hrem Hrefs].
  split; [apply pruneMessages_count|].
  split; [exact Hrem|]. split; [exact Hdel|]. split; [exact Hkeep|exact Hrefs].
Qed.

(** *** What pruning unconfirmed messages removes *)

Lemma collectUnconfirmed_spec (t : Tangle) (txHashes : list Hash) :
  forall acc x,
    x ∈ collectUnconfirmed t txHashes acc <->
    x ∈ acc \/ (x ∈ txHashes /\ prunable t x = true).
Proof.
  induction txHashes as [|h rest IH]; intros acc x; cbn [collectUnconfirmed].
  { split; [by left|]. intros [?|[Hx _]]; [done|]. by apply elem_of_nil in Hx. }
  assert (Hskip : prunable t h = false \/ h ∈ acc ->
            (x ∈ collectUnconfirmed t rest acc <->
             x ∈ acc \/ x ∈ h :: rest /\ prunable t x = true)).
  { intros Hh. rewrite IH, elem_of_cons. split.
    - intros [?|[? ?]]; [by left|right; by split; [right|]].
    - intros [?|[[->|?] Hp]]; [by left| |right; by split].
      destruct Hh as [Hh|Hh]; [congruence|by left]. }
  destruct (decide (h ∈ acc)) as [Hin|Hnin]; [apply Hskip; by right|].
  unfold prunable, hasMilestoneBundle in *.
  destruct (messages t !! h) as [m|] eqn:Hm; [|apply Hskip; by left].
  destruct (IsConfirmed m) eqn:Hc; [apply Hskip; by left|].
  destruct (MaybeMilestoneTx m && _) eqn:Hmb; [apply Hskip; by left|].
  rewrite IH, elem_of_app, list_elem_of_singleton, elem_of_cons. split.
  - intros [[?| ->]|[? ?]]; [by left| |right; by split; [right|]].
    right. split; [by left|]. by rewrite Hm, Hc, Hmb.
  - intros [?|[[->|?] Hp]]; [left; by left|left; by right|right; by split].
Qed.

Lemma collectUnconfirmed_NoDup (t : Tangle) (txHashes : list Hash) :
  forall acc, NoDup acc -> NoDup (collectUnconfirmed t txHashes acc).
Proof.
  induction txHashes as [|h rest IH]; intros acc Hacc; cbn [collectUnconfirmed];
    [exact Hacc|].
  destruct (decide (h ∈ acc)); [by apply IH|].
  destruct (messages t !! h) as [m|]; [|by apply IH].
  destruct (IsConfirmed m); [by apply IH|].
  destruct (_ && _); apply IH; [exact Hacc|].
  apply NoDup_app. split; [exact Hacc|]. split.
  - intros y Hy Hy'. apply list_elem_of_singleton in Hy'. congruence.
  - apply NoDup_singleton.
Qed.

Lemma pruneUnconfirmedTransactions_eval (index : Z) (w : World) :
  St.eval (pruneUnconfirmedTransactions index) w =
  let ids := collectUnconfirmed (tangle w)
               (GetUnconfirmedMessageIDs index (tangle w)) [] in
  (length ids, length ids).
Proof.
  unfold pruneUnconfirmedTransactions.
  rewrite eval_bind. change (St.exec St.get w) with w.
  change (St.eval St.get w) with w. cbv beta zeta.
  rewrite !eval_bind. unfold St.eval at 1. cbn [fst mret St_mret St.ret].
  by rewrite pruneMessages_count.
Qed.

(** X15. pruneUnconfirmedTransactions collects each listed message at most
    once, and exactly those that are stored, not confirmed and not kept
    back as part of a milestone. Both counts it returns are the size of
    that set. Afterwards the list of the index is empty, while the lists of
    the other indexes, the milestones, the ledger diffs and SnapshotInfo
    are as before. *)
Theorem pruneUnconfirmedTransactions_collects (index : Z) (w : World) :
  let listed := GetUnconfirmedMessageIDs index (tangle w) in
  let ids := collectUnconfirmed (tangle w) listed [] in
  let r := pruneUnconfirmedTransactions index w in
  NoDup ids /\
  (forall x, x ∈ ids <-> x ∈ listed /\ prunable (tangle w) x = true) /\
  r.1 = (length ids, length ids) /\
  GetUnconfirmedMessageIDs index (tangle r.2) = [] /\
  (forall j, j <> index ->
     unconfirmed (tangle r.2) !! j = unconfirmed (tangle w) !! j) /\
  milestones (tangle r.2) = milestones (tangle w) /\
  ledgerDiffs (tangle r.2) = ledgerDiffs (tangle w) /\
  snapshotInfo (tangle r.2) = snapshotInfo (tangle w).
Proof.
  intros listed ids r. subst r.
  change (pruneUnconfirmedTransactions index w).1
    with (St.eval (pruneUnconfirmedTransactions index) w).
  change (pruneUnconfirmedTransactions index w).2
    with (St.exec (pruneUnconfirmedTransactions index) w).
  rewrite pruneUnconfirmedTransactions_eval, pruneUnconfirmedTransactions_exec.
  fold listed ids.
  destruct (pruneMessages_removed ids w)
    as ((_ & _ & Hu & _ & Hms & Hld & _ & _ & Hsi) & _).
  split; [apply collectUnconfirmed_NoDup, NoDup_nil_2|].
  split.
  { intros x. unfold ids. rewrite collectUnconfirmed_spec. split.
    - intros [Hx|?]; [by apply elem_of_nil in Hx|done].
    - by right. }
  split; [reflexivity|]. cbn. unfold GetUnconfirmedMessageIDs. cbn.
  rewrite lookup_delete_eq. split; [reflexivity|]. split; [|done].
  intros j Hj. rewrite lookup_delete_ne by done. by rewrite Hu.
Qed.

(** X16. Which messages pruneUnconfirmedTransactions deletes: a listed
    message that is stored, not confirmed and not accepted by
    IsMaybeMilestoneTx is deleted; a confirmed message is never deleted,
    even when it is listed as unconfirmed; and no message outside the list
    of the index is touched. *)
Theorem pruneUnconfirmedTransactions_deletes (index : Z) (w : World) :
  let listed := GetUnconfirmedMessageIDs index (tangle w) in
  let w' := St.exec (pruneUnconfirmedTransactions index) w in
  (forall x msg,
     x ∈ listed -> messages (tangle w) !! x = Some msg ->
     IsConfirmed msg = false -> MaybeMilestoneTx msg = false ->
     messages (tangle w') !! x = None) /\
  (forall x msg,
     messages (tangle w) !! x = Some msg -> IsConfirmed msg = true ->
     messages (tangle w') !! x = Some msg) /\
  (forall x, x ∉ listed ->
     messages (tangle w') !! x = messages (tangle w) !! x).
Proof.
  intros listed w'. subst w'. rewrite pruneUnconfirmedTransactions_exec.
  fold listed.
  set (ids := collectUnconfirmed (tangle w) listed []).
  destruct (pruneMessages_frame ids w) as (_ & _ & _ & _ & Hdel & Hkeep & _).
  assert (Hids : forall x, x ∈ ids <-> x ∈ listed /\ prunable (tangle w) x = true).
  { intros x. unfold ids. rewrite collectUnconfirmed_spec. split.
    - intros [Hx|?]; [by apply elem_of_nil in Hx|done].
    - by right. }
  cbn. split; [|split].
  - intros x msg Hx Hmsg Hc Hm. apply Hdel, Hids. split; [exact Hx|].
    unfold prunable. by rewrite Hmsg, Hc, Hm.
  - intros x msg Hmsg Hc. rewrite Hkeep; [exact Hmsg|].
    intros Hx. apply Hids in Hx as [_ Hx].
    unfold prunable in Hx. by rewrite Hmsg, Hc in Hx.
  - intros x Hx. apply Hkeep. intros Hin. by apply Hids in Hin as [? _].
Qed.

(** *** The guards of pruneDatabase *)

Lemma pruneDatabase_guard_failure (env : Env) (fuel : nat) (targetIndex : Z)
    (abortSignal : list bool) (w : World) (info : SnapshotInfo) :
  snapshotInfo (tangle w) = Some info ->
  ~ guardsPass env info targetIndex ->
  exists e,
    pruneDatabase env fuel targetIndex abortSignal w = (Returned (Some e), w) /\
    (Cause e = ErrNotEnoughHistory \/ Cause e = ErrNoPruningNeeded) /\
    (Cause e = ErrNoPruningNeeded <->
     (SnapshotIndex info <?
        add (add (SolidEntryPointCheckThresholdPast env) AdditionalPruningThreshold) 1)
       = false /\
     (PruningIndex info >=? clampedTarget env info targetIndex) = true).
Proof.
  intros Hsi Hg. unfold guardsPass, clampedTarget in *.
  unfold pruneDatabase. rewrite run_bind.
  change (St.eval St.get w) with w. change (St.exec St.get w) with w.
  cbv beta. rewrite Hsi.
  destruct (SnapshotIndex info <? _) eqn:H1.
  { eexists. split; [reflexivity|]. cbn. split; [by left|].
    split; [discriminate|]. by intros [? _]. }
  cbv zeta.
  destruct (PruningIndex info >=? _) eqn:H2.
  { eexists. split; [reflexivity|]. cbn. split; [by right|]. by split. }
  destruct (_ >? _) eqn:H3 in |- *.
  { eexists. split; [reflexivity|]. cbn. split; [by left|].
    split; [discriminate|]. by intros [_ ?]. }
  exfalso. apply Hg. repeat split; assumption.
Qed.

(** X17. A call of pruneDatabase that does not get past its guards leaves
    the store, the isPruning flag and the trace as they are. Without a
    SnapshotInfo it panics; otherwise it returns NoPruningNeeded when the
    snapshot is old enough and PruningIndex has reached the clamped target,
    and NotEnoughHistory in the two other cases. *)
Theorem pruneDatabase_guards (env : Env) (fuel : nat) (targetIndex : Z)
    (abortSignal : list bool) (w : World) :
  (snapshotInfo (tangle w) = None ->
   pruneDatabase env fuel targetIndex abortSignal w
     = (Panicked "No snapshotInfo found!", w)) /\
  (forall info,
     snapshotInfo (tangle w) = Some info ->
     ~ guardsPass env info targetIndex ->
     exists e,
       pruneDatabase env fuel targetIndex abortSignal w = (Returned (Some e), w) /\
       (Cause e = ErrNotEnoughHistory \/ Cause e = ErrNoPruningNeeded) /\
       (Cause e = ErrNoPruningNeeded <->
        (SnapshotIndex info <?
           add (add (SolidEntryPointCheckThresholdPast env)
                    AdditionalPruningThreshold) 1) = false /\
        (PruningIndex info >=? clampedTarget env info targetIndex) = true)).
Proof.
  split.
  - intros Hsi. unfold pruneDatabase. rewrite run_bind.
    change (St.eval St.get w) with w. change (St.exec St.get w) with w.
    cbv beta. by rewrite Hsi.
  - intros info. apply pruneDatabase_guard_failure.
Qed.

(** *** What a run leaves alone *)

Lemma untouchedAbove_refl (T : Z) (t : Tangle) : untouchedAbove T t t.
Proof. by intros i Hi. Qed.

Lemma untouchedAbove_trans (T : Z) (t1 t2 t3 : Tangle) :
  untouchedAbove T t1 t2 -> untouchedAbove T t2 t3 -> untouchedAbove T t1 t3.
Proof.
  intros H12 H23 i Hi. destruct (H12 i Hi) as (A1 & A2 & A3).
  destruct (H23 i Hi) as (B1 & B2 & B3).
  split; [congruence|]. split; [by rewrite B2|congruence].
Qed.

Lemma onlyMessagesRemoved_untouched (T : Z) (t t' : Tangle) :
  onlyMessagesRemoved t t' -> untouchedAbove T t t'.
Proof.
  intros (_ & _ & Hu & _ & Hm & Hl & _) i Hi. by rewrite Hu, Hm, Hl.
Qed.

Lemma pruneUnconfirmedTransactions_untouched (index T : Z) (w : World) :
  index <= T ->
  untouchedAbove T (tangle w)
    (tangle (St.exec (pruneUnconfirmedTransactions index) w)).
Proof.
  intros Hle. rewrite pruneUnconfirmedTransactions_exec.
  set (ids := collectUnconfirmed _ _ _).
  destruct (pruneMessages_removed ids w) as [Hrem _].
  eapply untouchedAbove_trans;
    [exact (onlyMessagesRemoved_untouched T _ _ Hrem)|].
  intros i Hi. cbn. repeat split; try done.
  apply lookup_delete_ne. lia.
Qed.

Lemma completeMilestone_untouched (mi T : Z) (si' : SnapshotInfo)
    (msgs : list Hash) (w : World) :
  mi <= T ->
  let w' := completeMilestone mi si' msgs w in
  untouchedAbove T (tangle w) (tangle w') /\
  milestones (tangle w') !! mi = None /\
  (mi ∉ ledgerDiffs (tangle w')) /\
  (forall i, milestones (tangle w) !! i = None ->
             milestones (tangle w') !! i = None) /\
  (forall i, i ∉ ledgerDiffs (tangle w) -> i ∉ ledgerDiffs (tangle w')).
Proof.
  intros Hle. destruct (pruneMessages_removed msgs w) as [Hrem _].
  pose proof Hrem as (_ & _ & _ & _ & Hm & Hl & _).
  unfold completeMilestone. unfold St.exec in *. run_pruning.
  split; [|split; [|split; [|split]]].
  - eapply untouchedAbove_trans;
      [exact (onlyMessagesRemoved_untouched T _ _ Hrem)|].
    intros i Hi. cbn. split; [apply lookup_delete_ne; lia|].
    split; [|done]. rewrite elem_of_difference, elem_of_singleton.
    split; [tauto|]. intros ?. split; [done|lia].
  - apply lookup_delete_eq.
  - rewrite elem_of_difference, elem_of_singleton. tauto.
  - intros i Hi. rewrite Hm. destruct (decide (mi = i)) as [->|Hne];
      [apply lookup_delete_eq|by rewrite lookup_delete_ne].
  - intros i Hi. rewrite Hl, elem_of_difference. tauto.
Qed.

(** The calls of the loop work on indexes up to the target, and the data of
    the indexes beyond it is left alone; this holds with and without wrap
    around, since every iteration first compares its index against the
    target. *)
Lemma pruneMilestones_upTo (env : Env) (T : Z) (fuel : nat) :
  forall (mi : Z) (abortSignal : list bool) (si : SnapshotInfo) (w : World),
    let w' := St.exec (pruneMilestones env fuel mi T abortSignal si) w in
    untouchedAbove T (tangle w) (tangle w') /\
    exists d, trace w' = trace w ++ d /\
              Forall (fun e => forall i, indexOf e = Some i -> i <= T) d.
Proof.
  assert (Hstop : forall w : World,
            untouchedAbove T (tangle w) (tangle w) /\
            exists d, trace w = trace w ++ d /\
                      Forall (fun e => forall i, indexOf e = Some i -> i <= T) d).
  { intros w. split; [apply untouchedAbove_refl|]. exists [].
    by rewrite app_nil_r. }
  induction fuel as [|fuel IH]; intros mi abortSignal si w; cbv zeta.
  { unfold St.exec. cbn [pruneMilestones]. destruct (mi <=? T); apply Hstop. }
  destruct (mi <=? T) eqn:Hle;
    [|unfold St.exec; cbn [pruneMilestones]; rewrite Hle; apply Hstop].
  destruct (abortFired abortSignal) eqn:Hab;
    [unfold St.exec; cbn [pruneMilestones]; rewrite Hle, Hab; apply Hstop|].
  apply Z.leb_le in Hle as Hle'.
  unfold St.exec. rewrite (pruneMilestones_step _ _ _ _ _ _ _ Hle Hab). cbv zeta.
  destruct (pruneUnconfirmedTransactions_frame mi w)
    as ((d1 & Hd1 & HF1) & _ & _ & _ & _).
  pose proof (pruneUnconfirmedTransactions_untouched mi T w Hle') as Hu1.
  set (w1 := St.exec (pruneUnconfirmedTransactions mi) w) in *. clearbody w1.
  assert (HW1 : Forall (fun e => forall i, indexOf e = Some i -> i <= T) d1).
  { eapply Forall_impl; [exact HF1|]. intros e He i Hi.
    apply unconfirmedEvent_deletionAt in He as [_ He]. rewrite (He i Hi). lia. }
  assert (Hskip : forall si',
    let r := pruneMilestones env fuel (add mi 1) T (tail abortSignal) si' w1 in
    untouchedAbove T (tangle w) (tangle r.2) /\
    exists d, trace r.2 = trace w ++ d /\
              Forall (fun e => forall i, indexOf e = Some i -> i <= T) d).
  { intros si'. cbv zeta.
    destruct (IH (add mi 1) (tail abortSignal) si' w1) as (Hu2 & d2 & Hd2 & HF2).
    unfold St.exec in *. split; [by eapply untouchedAbove_trans|].
    exists (d1 ++ d2). split; [by rewrite Hd2, Hd1, app_assoc|].
    apply Forall_app. by split. }
  destruct (milestones (tangle w1) !! mi) as [cachedMs|]; [|apply Hskip].
  destruct (TraverseParents env (tangle w1) (MessageID cachedMs)) as [err|msgs];
    [apply Hskip|].
  destruct (completeMilestone_frame mi (withPruningIndex mi si) msgs w1)
    as ((dm & Hdm & HFm) & _ & _ & _).
  destruct (completeMilestone_untouched mi T (withPruningIndex mi si) msgs w1 Hle')
    as (Hu2 & _).
  set (w2 := completeMilestone mi (withPruningIndex mi si) msgs w1) in *.
  clearbody w2.
  destruct (IH (add mi 1) (tail abortSignal) (withPruningIndex mi si) w2)
    as (Hu3 & d3 & Hd3 & HF3).
  unfold St.exec in *.
  split; [eapply untouchedAbove_trans; [exact Hu1|];
          by eapply untouchedAbove_trans|].
  exists (d1 ++ (dm ++ [DeleteLedgerDiffForMilestone mi; DeleteMilestone mi;
                        SetSnapshotInfo (withPruningIndex mi si);
                        PruningMilestoneIndexChanged mi]) ++ d3).
  split; [rewrite Hd3, Hdm, Hd1, <- !app_assoc; reflexivity|].
  apply Forall_app. split; [exact HW1|].
  apply Forall_app. split; [|exact HF3].
  apply Forall_app. split.
  { eapply Forall_impl; [exact HFm|]. intros e He i Hi.
    destruct e; cbn in He; try done; discriminate Hi. }
  repeat (apply Forall_cons_2;
          [intros i Hi; cbn in Hi; injection Hi as <-; lia|]).
  apply Forall_nil_2.
Qed.

Lemma addSolidEntryPoints_store (news : list (Hash * Z)) (w : World) :
  let t' := tangle (St.exec (addSolidEntryPoints news) w) in
  milestones t' = milestones (tangle w) /\
  ledgerDiffs t' = ledgerDiffs (tangle w) /\
  unconfirmed t' = unconfirmed (tangle w).
Proof.
  revert w. induction news as [|[h i] news IH]; intros w; [done|].
  cbn [addSolidEntryPoints]. cbv zeta. rewrite exec_bind.
  destruct (IH (St.exec (solidEntryPointsAdd h i) w)) as (Hm & Hl & Hu).
  by rewrite Hm, Hl, Hu.
Qed.

Lemma phase1_untouched (T : Z) (info : SnapshotInfo) (news : list (Hash * Z))
    (w : World) :
  PruningIndex info <= T ->
  untouchedAbove T (tangle w) (tangle (phase1 T info news w)).
Proof.
  intros Hle. unfold phase1.
  set (wb := St.exec resetSolidEntryPoints (St.exec (setIsPruning true) w)).
  destruct (addSolidEntryPoints_store news wb) as (Hm & Hl & Hu).
  set (wc := St.exec (addSolidEntryPoints news) wb) in *. clearbody wc.
  set (wd := St.exec (setSnapshotInfo (withEntryPointIndex T info))
               (St.exec storeSolidEntryPoints wc)).
  eapply untouchedAbove_trans;
    [|exact (pruneUnconfirmedTransactions_untouched (PruningIndex info) T wd Hle)].
  intros i Hi. subst wd. run_pruning. rewrite Hm, Hl, Hu. done.
Qed.

Lemma clampedTarget_le (env : Env) (info : SnapshotInfo) (targetIndex : Z) :
  clampedTarget env info targetIndex <= targetIndex.
Proof.
  unfold clampedTarget. destruct (_ >? _) eqn:Hgt; [|lia].
  rewrite Z.gtb_ltb in Hgt. apply Z.ltb_lt in Hgt. lia.
Qed.

(** X18. pruneDatabase never goes beyond its target. The target it works
    with is at most the requested one; every call it makes for a milestone
    index has an index up to that target; and the milestone records, ledger
    diffs and unconfirmed lists of all later indexes are afterwards what
    they were. This holds for every abort signal and however long the loop
    runs. *)
Theorem pruneDatabase_spares_later_indexes (env : Env) (fuel : nat)
    (targetIndex : Z) (abortSignal : list bool) (w : World)
    (info : SnapshotInfo) :
  snapshotInfo (tangle w) = Some info ->
  let T := clampedTarget env info targetIndex in
  let w' := St.exec (pruneDatabase env fuel targetIndex abortSignal) w in
  T <= targetIndex /\
  untouchedAbove T (tangle w) (tangle w') /\
  exists d, trace w' = trace w ++ d /\
            Forall (fun e => forall i, indexOf e = Some i -> i <= T) d.
Proof.
  intros Hsi T w'. subst w'. split; [apply clampedTarget_le|].
  destruct (guardsPass_dec env info targetIndex) as [Hg|Hg].
  2:{ rewrite (pruneDatabase_guarded _ _ _ _ _ _ Hsi Hg).
      split; [apply untouchedAbove_refl|]. exists []. by rewrite app_nil_r. }
  destruct (getSolidEntryPoints env (tangle w) T) as [err|news] eqn:Hsep.
  { unfold St.exec.
    rewrite (pruneDatabase_no_entry_points _ _ _ _ _ _ _ Hsi Hg Hsep). cbn.
    split; [apply untouchedAbove_refl|]. eexists. split; [reflexivity|].
    repeat (apply Forall_cons_2; [intros i Hi; discriminate Hi|]).
    apply Forall_nil_2. }
  assert (Hlt : PruningIndex info < T).
  { destruct Hg as (_ & Hge & _). fold T in Hge.
    rewrite Z.geb_leb in Hge. apply Z.leb_gt in Hge. lia. }
  unfold St.exec.
  rewrite (pruneDatabase_running env fuel targetIndex abortSignal w info news Hsi Hg Hsep).
  fold T.
  destruct (phase1_frame T info news w) as ((du & Hdu & HFu) & _ & _ & _).
  pose proof (phase1_untouched T info news w ltac:(lia)) as Hu0.
  set (w0 := phase1 T info news w) in *. clearbody w0.
  destruct (pruneMilestones_upTo env T fuel (add (PruningIndex info) 1)
              abortSignal (withEntryPointIndex T info) w0)
    as (Hu1 & dl & Hdl & HFl).
  unfold St.exec in Hu1, Hdl.
  destruct (pruneMilestones env fuel _ T abortSignal _ w0) as [l w1].
  destruct (finish_frame l w1) as (Ht & tl & Htl & HFt). cbn [snd] in *.
  rewrite Ht. split; [by eapply untouchedAbove_trans|].
  exists (phase1Calls T info news ++ du ++ dl ++ tl). split.
  { rewrite Htl, Hdl, Hdu, <- !app_assoc. reflexivity. }
  apply Forall_app; split; [|apply Forall_app; split; [|apply Forall_app; split]].
  - apply Forall_forall. intros e He i Hi.
    unfold phase1Calls in He. rewrite !elem_of_app, !elem_of_cons in He.
    destruct He as [[->|[->|He]]|[He|[->|[->|He]]]]; try discriminate Hi.
    + by apply elem_of_nil in He.
    + apply list_elem_of_fmap in He as (q & -> & _). discriminate Hi.
    + cbn in Hi. injection Hi as <-. lia.
    + by apply elem_of_nil in He.
  - eapply Forall_impl; [exact HFu|]. intros e [_ He] i Hi.
    rewrite (He i Hi). lia.
  - exact HFl.
  - eapply Forall_impl; [exact HFt|]. intros e [_ He] i Hi. congruence.
Qed.

Lemma pruneDatabase_spares_later_indexes_witness :
  let w' := St.exec (pruneDatabase sampleEnv 60 2000 [false; false; true])
              sampleWorld in
  clampedTarget sampleEnv (mkSnapshotInfo 1000 800 800) 2000 = 899 /\
  untouchedAbove 899 (tangle sampleWorld) (tangle w').
Proof.
  split; [reflexivity|].
  exact (proj1 (proj2 (pruneDatabase_spares_later_indexes sampleEnv 60 2000
                         [false; false; true] sampleWorld
                         (mkSnapshotInfo 1000 800 800) eq_refl))).
Defined.

(** *** The isPruning flag *)

Lemma loopEvent_not_flag (ms : gmap Z Milestone) (epi : Z) (e : Effect) :
  loopEvent ms epi e -> isSetIsPruning e = false.
Proof. by destruct e. Qed.

(** X19. Every call of pruneDatabase that passes the guards and returns,
    with or without an error, has cleared the isPruning flag: the flag is
    set as the first call, cleared as the last, and not touched in between. *)
Theorem isPruning_cleared_on_return (env : Env) (fuel : nat) (targetIndex : Z)
    (abortSignal : list bool) (w : World) (info : SnapshotInfo)
    (err : option error) :
  snapshotInfo (tangle w) = Some info ->
  guardsPass env info targetIndex ->
  let r := pruneDatabase env fuel targetIndex abortSignal w in
  r.1 = Returned err ->
  isPruning r.2 = false /\
  exists mid,
    trace r.2 = trace w ++ SetIsPruning true :: mid ++ [SetIsPruning false] /\
    Forall (fun e => isSetIsPruning e = false) mid.
Proof.
  intros Hsi Hg r. subst r.
  set (T := clampedTarget env info targetIndex).
  destruct (getSolidEntryPoints env (tangle w) T) as [e|news] eqn:Hsep.
  { rewrite (pruneDatabase_no_entry_points _ _ _ _ _ _ _ Hsi Hg Hsep). cbn.
    intros _. split; [reflexivity|]. exists []. by split. }
  rewrite (pruneDatabase_running env fuel targetIndex abortSignal w info news Hsi Hg Hsep).
  fold T.
  destruct (phase1_frame T info news w) as ((du & Hdu & HFu) & Hs0 & _ & _).
  set (w0 := phase1 T info news w) in *. clearbody w0.
  destruct (pruneMilestones_run env T fuel (add (PruningIndex info) 1)
              abortSignal (withEntryPointIndex T info) w0 Hs0)
    as (dl & Hdl & _ & _ & _ & _ & HFl).
  unfold St.exec in Hdl.
  destruct (pruneMilestones env fuel _ T abortSignal _ w0) as [l w1].
  cbn [snd] in Hdl.
  assert (HFu' : Forall (fun e => isSetIsPruning e = false) du).
  { eapply Forall_impl; [exact HFu|]. intros e [He _]. by destruct e. }
  assert (HFl' : Forall (fun e => isSetIsPruning e = false) dl).
  { eapply Forall_impl; [exact HFl|]. intros e. apply loopEvent_not_flag. }
  assert (Hcalls : Forall (fun e => isSetIsPruning e = false)
            (ResetSolidEntryPoints
               :: map (fun p : Hash * Z => SolidEntryPointsAdd p.1 p.2) news
               ++ [StoreSolidEntryPoints;
                   SetSnapshotInfo (withEntryPointIndex T info)])).
  { apply Forall_cons_2; [done|]. apply Forall_app. split.
    - apply Forall_forall. intros e He.
      by apply list_elem_of_fmap in He as (q & -> & _).
    - by repeat apply Forall_cons_2. }
  set (calls := ResetSolidEntryPoints
                  :: map (fun p : Hash * Z => SolidEntryPointsAdd p.1 p.2) news
                  ++ [StoreSolidEntryPoints;
                      SetSnapshotInfo (withEntryPointIndex T info)]) in *.
  assert (Hphase : phase1Calls T info news = SetIsPruning true :: calls)
    by reflexivity.
  clearbody calls.
  destruct l; cbn; intros Hr; try discriminate Hr; (split; [reflexivity|]).
  - exists (calls ++ du ++ dl ++ [RunGarbageCollection]). split.
    + rewrite Hdl, Hdu, Hphase. rewrite <- ?app_assoc. cbn [app].
      rewrite <- ?app_assoc. reflexivity.
    + apply Forall_app; split; [exact Hcalls|].
      apply Forall_app; split; [exact HFu'|].
      apply Forall_app; split; [exact HFl'|].
      by apply Forall_cons_2.
  - exists (calls ++ du ++ dl). split.
    + rewrite Hdl, Hdu, Hphase. rewrite <- ?app_assoc. cbn [app].
      rewrite <- ?app_assoc. reflexivity.
    + apply Forall_app; split; [exact Hcalls|].
      apply Forall_app; split; [exact HFu'|exact HFl'].
Qed.

Lemma isPruning_cleared_on_return_witness :
  let r := pruneDatabase sampleEnv 60 851 [false; false; false; true] sampleWorld in
  r.1 = Returned (Some ErrPruningAborted) /\ isPruning r.2 = false.
Proof.
  split; [vm_compute; reflexivity|].
  apply (isPruning_cleared_on_return sampleEnv 60 851 [false; false; false; true]
           sampleWorld (mkSnapshotInfo 1000 800 800) (Some ErrPruningAborted)).
  - reflexivity.
  - repeat split.
  - vm_compute. reflexivity.
Defined.

(** *** A run to the end *)

Lemma pruneMilestones_past (env : Env) (fuel : nat) (mi T : Z)
    (abortSignal : list bool) (si : SnapshotInfo) (w : World) :
  (mi <=? T) = false ->
  pruneMilestones env fuel mi T abortSignal si w = (LoopDone, w).
Proof. intros Hgt. destruct fuel; cbn [pruneMilestones]; by rewrite Hgt. Qed.

Lemma abortFired_never (abortSignal : list bool) :
  Forall (fun b => b = false) abortSignal ->
  abortFired abortSignal = false /\
  Forall (fun b => b = false) (tail abortSignal).
Proof. intros [|b l Hb Hl]; by split. Qed.

(** Without an abort and with a walk that always succeeds, the loop reaches
    the target when the milestone of the target is stored. *)
Lemma pruneMilestones_full (env : Env) (T : Z) :
  (forall t h, exists l, TraverseParents env t h = inr l) ->
  T < MaxIndex ->
  forall (fuel : nat) (mi : Z) (abortSignal : list bool) (si : SnapshotInfo)
         (w : World),
    0 <= mi <= T ->
    T - mi + 1 <= Z.of_nat fuel ->
    Forall (fun b => b = false) abortSignal ->
    is_Some (milestones (tangle w) !! T) ->
    let r := pruneMilestones env fuel mi T abortSignal si w in
    r.1 = LoopDone /\
    snapshotInfo (tangle r.2) = Some (withPruningIndex T si) /\
    milestones (tangle r.2) !! T = None /\
    (T ∉ ledgerDiffs (tangle r.2)) /\
    exists d, trace r.2 = trace w ++ d ++ [PruningMilestoneIndexChanged T].
Proof.
  intros Hwalk HT.
  induction fuel as [|fuel IH]; intros mi abortSignal si w Hmi Hfuel Hab Hms;
    [lia|]. cbv zeta.
  assert (Hle : (mi <=? T) = true) by (apply Z.leb_le; lia).
  destruct (abortFired_never abortSignal Hab) as [Hab0 Hab'].
  rewrite (pruneMilestones_step _ _ _ _ _ _ _ Hle Hab0). cbv zeta.
  rewrite (add_1_small mi MaxIndex) by lia.
  destruct (pruneUnconfirmedTransactions_frame mi w)
    as ((d1 & Hd1 & _) & _ & Hms1 & _ & _).
  set (w1 := St.exec (pruneUnconfirmedTransactions mi) w) in *. clearbody w1.
  rewrite <- Hms1 in Hms.
  assert (Hskip : mi < T -> forall si',
    let r := pruneMilestones env fuel (mi + 1) T (tail abortSignal) si' w1 in
    r.1 = LoopDone /\
    snapshotInfo (tangle r.2) = Some (withPruningIndex T si') /\
    milestones (tangle r.2) !! T = None /\
    (T ∉ ledgerDiffs (tangle r.2)) /\
    exists d, trace r.2 = trace w ++ d ++ [PruningMilestoneIndexChanged T]).
  { intros Hlt si'. cbv zeta.
    destruct (IH (mi + 1) (tail abortSignal) si' w1) as (Hr & Hs & Hm & Hl & d & Hd);
      [lia|lia|exact Hab'|exact Hms|].
    repeat split; try done. exists (d1 ++ d).
    by rewrite Hd, Hd1, <- !app_assoc. }
  destruct (milestones (tangle w1) !! mi) as [cachedMs|] eqn:Hcur.
  2:{ destruct (decide (mi = T)) as [->|Hne].
      - rewrite Hcur in Hms. by destruct Hms.
      - apply Hskip. lia. }
  destruct (Hwalk (tangle w1) (MessageID cachedMs)) as [msgs ->].
  destruct (completeMilestone_frame mi (withPruningIndex mi si) msgs w1)
    as ((dm & Hdm & _) & Hsi2 & Hms2 & _).
  destruct (completeMilestone_untouched mi mi (withPruningIndex mi si) msgs w1
              ltac:(lia)) as (_ & Hgone & Hnold & _ & _).
  set (w2 := completeMilestone mi (withPruningIndex mi si) msgs w1) in *.
  clearbody w2.
  destruct (decide (mi = T)) as [->|Hne].
  - rewrite pruneMilestones_past by (apply Z.leb_gt; lia). cbn [fst snd].
    repeat split; try done. exists (d1 ++ dm ++ [DeleteLedgerDiffForMilestone T;
      DeleteMilestone T; SetSnapshotInfo (withPruningIndex T si)]).
    rewrite Hdm, Hd1, <- !app_assoc. reflexivity.
  - destruct (IH (mi + 1) (tail abortSignal) (withPruningIndex mi si) w2)
      as (Hr & Hs & Hm & Hl & d & Hd); [lia|lia|exact Hab'| |].
    { rewrite Hms2, lookup_delete_ne by done. exact Hms. }
    repeat split; try done.
    exists (d1 ++ (dm ++ [DeleteLedgerDiffForMilestone mi; DeleteMilestone mi;
                          SetSnapshotInfo (withPruningIndex mi si);
                          PruningMilestoneIndexChanged mi]) ++ d).
    rewrite Hd, Hdm, Hd1, <- !app_assoc. reflexivity.
Qed.

(** X20. A run to the end. When the guards pass, the new entry points are
    computed, the abort signal never fires, the walk of every milestone
    succeeds and the milestone of the target is stored, pruneDatabase
    returns without error once the loop may run long enough: PruningIndex
    and EntryPointIndex are both persisted at the target, the milestone
    record and the ledger diff of the target are gone, and the last calls
    are the event for the target, the garbage collection and the clearing
    of the flag. Milestones that are missing on the way do not stop it. *)
Theorem full_run_reaches_target (env : Env) (fuel : nat) (targetIndex : Z)
    (abortSignal : list bool) (w : World) (info : SnapshotInfo)
    (news : list (Hash * Z)) :
  snapshotInfo (tangle w) = Some info ->
  guardsPass env info targetIndex ->
  let T := clampedTarget env info targetIndex in
  getSolidEntryPoints env (tangle w) T = inr news ->
  (forall t h, exists l, TraverseParents env t h = inr l) ->
  0 <= PruningIndex info ->
  T < MaxIndex ->
  T - PruningIndex info <= Z.of_nat fuel ->
  Forall (fun b => b = false) abortSignal ->
  is_Some (milestones (tangle w) !! T) ->
  let r := pruneDatabase env fuel targetIndex abortSignal w in
  r.1 = Returned None /\
  snapshotInfo (tangle r.2) = Some (mkSnapshotInfo (SnapshotIndex info) T T) /\
  milestones (tangle r.2) !! T = None /\
  (T ∉ ledgerDiffs (tangle r.2)) /\
  isPruning r.2 = false /\
  exists d, trace r.2 = trace w ++ d ++ [PruningMilestoneIndexChanged T;
                                         RunGarbageCollection;
                                         SetIsPruning false].
Proof.
  intros Hsi Hg T Hsep Hwalk H0 HT Hfuel Hab Hms r. subst r.
  rewrite (pruneDatabase_running env fuel targetIndex abortSignal w info news Hsi Hg Hsep).
  fold T.
  assert (Hlt : PruningIndex info < T).
  { destruct Hg as (_ & Hge & _). fold T in Hge.
    rewrite Z.geb_leb in Hge. apply Z.leb_gt in Hge. lia. }
  destruct (phase1_frame T info news w) as ((du & Hdu & _) & _ & Hm0 & _).
  set (w0 := phase1 T info news w) in *. clearbody w0.
  rewrite <- Hm0 in Hms. rewrite (add_1_small _ T) by lia.
  destruct (pruneMilestones_full env T Hwalk HT fuel (PruningIndex info + 1)
              abortSignal (withEntryPointIndex T info) w0)
    as (Hr & Hs & Hm & Hl & d & Hd); [lia|lia|exact Hab|exact Hms|].
  destruct (pruneMilestones env fuel _ T abortSignal _ w0) as [l w1].
  cbn [fst snd] in *. subst l. cbn.
  repeat split; try done.
  exists (phase1Calls T info news ++ du ++ d).
  rewrite Hd, Hdu, <- !app_assoc. reflexivity.
Qed.

Lemma full_run_reaches_target_witness :
  let r := pruneDatabase sampleEnv 51 851 [] sampleWorld in
  r.1 = Returned None /\
  snapshotInfo (tangle r.2) = Some (mkSnapshotInfo 1000 851 851) /\
  milestones (tangle r.2) !! 851 = None.
Proof.
  destruct (full_run_reaches_target sampleEnv 51 851 [] sampleWorld
              (mkSnapshotInfo 1000 800 800) [("m851"%string, 851)])
    as (Hr & Hs & Hm & _).
  - reflexivity.
  - repeat split.
  - reflexivity.
  - intros t h. by exists [h].
  - cbn. lia.
  - vm_compute. reflexivity.
  - vm_compute. discriminate.
  - constructor.
  - vm_compute. eauto.
  - by repeat split.
Defined.

(** *** The order of the three indexes *)

Lemma add_small (a b : Z) : 0 <= a + b <= MaxIndex -> add a b = a + b.
Proof. intros H. unfold add, wrap. apply Z.mod_small. unfold MaxIndex in H. lia. Qed.

Lemma sub_small (a b : Z) : 0 <= a - b <= MaxIndex -> sub a b = a - b.
Proof. intros H. unfold sub, wrap. apply Z.mod_small. unfold MaxIndex in H. lia. Qed.

(** Below the largest index the loop only moves upwards: its calls work on
    indexes from its first one on. *)
Lemma pruneMilestones_from (env : Env) (T mi0 : Z) :
  0 <= mi0 ->
  T < MaxIndex ->
  forall (fuel : nat) (mi : Z) (abortSignal : list bool) (si : SnapshotInfo)
         (w : World),
    mi0 <= mi ->
    exists d,
      trace (St.exec (pruneMilestones env fuel mi T abortSignal si) w)
        = trace w ++ d /\
      Forall (fun e => forall i, indexOf e = Some i -> mi0 <= i) d.
Proof.
  intros H0 HT.
  assert (Hstop : forall w : World,
            exists d, trace w = trace w ++ d /\
                      Forall (fun e => forall i, indexOf e = Some i -> mi0 <= i) d).
  { intros w. exists []. by rewrite app_nil_r. }
  induction fuel as [|fuel IH]; intros mi abortSignal si w Hmi.
  { unfold St.exec. cbn [pruneMilestones]. destruct (mi <=? T); apply Hstop. }
  destruct (mi <=? T) eqn:Hle;
    [|unfold St.exec; cbn [pruneMilestones]; rewrite Hle; apply Hstop].
  destruct (abortFired abortSignal) eqn:Hab;
    [unfold St.exec; cbn [pruneMilestones]; rewrite Hle, Hab; apply Hstop|].
  apply Z.leb_le in Hle as Hle'.
  unfold St.exec. rewrite (pruneMilestones_step _ _ _ _ _ _ _ Hle Hab). cbv zeta.
  rewrite (add_1_small mi MaxIndex) by lia.
  destruct (pruneUnconfirmedTransactions_frame mi w)
    as ((d1 & Hd1 & HF1) & _ & _ & _ & _).
  set (w1 := St.exec (pruneUnconfirmedTransactions mi) w) in *. clearbody w1.
  assert (HW1 : Forall (fun e => forall i, indexOf e = Some i -> mi0 <= i) d1).
  { eapply Forall_impl; [exact HF1|]. intros e He i Hi.
    apply unconfirmedEvent_deletionAt in He as [_ He]. rewrite (He i Hi). lia. }
  assert (Hskip : forall si',
    exists d,
      trace (pruneMilestones env fuel (mi + 1) T (tail abortSignal) si' w1).2
        = trace w ++ d /\
      Forall (fun e => forall i, indexOf e = Some i -> mi0 <= i) d).
  { intros si'.
    destruct (IH (mi + 1) (tail abortSignal) si' w1) as (d2 & Hd2 & HF2); [lia|].
    unfold St.exec in *. exists (d1 ++ d2).
    split; [by rewrite Hd2, Hd1, app_assoc|]. apply Forall_app. by split. }
  destruct (milestones (tangle w1) !! mi) as [cachedMs|]; [|apply Hskip].
  destruct (TraverseParents env (tangle w1) (MessageID cachedMs)) as [err|msgs];
    [apply Hskip|].
  destruct (completeMilestone_frame mi (withPruningIndex mi si) msgs w1)
    as ((dm & Hdm & HFm) & _ & _ & _).
  set (w2 := completeMilestone mi (withPruningIndex mi si) msgs w1) in *.
  clearbody w2.
  destruct (IH (mi + 1) (tail abortSignal) (withPruningIndex mi si) w2)
    as (d3 & Hd3 & HF3); [lia|].
  unfold St.exec in *.
  exists (d1 ++ (dm ++ [DeleteLedgerDiffForMilestone mi; DeleteMilestone mi;
                        SetSnapshotInfo (withPruningIndex mi si);
                        PruningMilestoneIndexChanged mi]) ++ d3).
  split; [rewrite Hd3, Hdm, Hd1, <- !app_assoc; reflexivity|].
  apply Forall_app. split; [exact HW1|].
  apply Forall_app. split; [|exact HF3].
  apply Forall_app. split.
  { eapply Forall_impl; [exact HFm|]. intros e He i Hi.
    destruct e; cbn in He; try done; discriminate Hi. }
  repeat (apply Forall_cons_2;
          [intros i Hi; cbn in Hi; injection Hi as <-; lia|]).
  apply Forall_nil_2.
Qed.

Lemma lastCompleted_between (lo hi : Z) (d : list Effect) :
  Forall (fun e => forall i, indexOf e = Some i -> lo <= i <= hi) d ->
  forall start, lo <= start <= hi -> lo <= lastCompleted d start <= hi.
Proof.
  unfold lastCompleted.
  induction 1 as [|e d He _ IH]; intros start Hs; [exact Hs|].
  cbn. destruct e; try (apply IH; exact Hs).
  apply IH. by apply He.
Qed.

(** X21. pruneDatabase keeps the three indexes of SnapshotInfo in order and
    never moves one back. On a store whose indexes satisfy
    PruningIndex <= EntryPointIndex <= SnapshotIndex and lie far enough below
    the largest index for the sums of the guards not to wrap around, every
    call, however it ends, leaves a SnapshotInfo with the same SnapshotIndex,
    with PruningIndex and EntryPointIndex not decreased, and again with
    PruningIndex <= EntryPointIndex <= SnapshotIndex. *)
Theorem pruneDatabase_keeps_index_order (env : Env) (fuel : nat)
    (targetIndex : Z) (abortSignal : list bool) (w : World)
    (info : SnapshotInfo) :
  snapshotInfo (tangle w) = Some info ->
  0 <= PruningIndex info <= EntryPointIndex info ->
  EntryPointIndex info <= SnapshotIndex info ->
  SnapshotIndex info + AdditionalPruningThreshold + 1 <= MaxIndex ->
  0 <= SolidEntryPointCheckThresholdPast env ->
  SolidEntryPointCheckThresholdPast env + AdditionalPruningThreshold + 1
    <= MaxIndex ->
  exists info',
    snapshotInfo
      (tangle (St.exec (pruneDatabase env fuel targetIndex abortSignal) w))
      = Some info' /\
    SnapshotIndex info' = SnapshotIndex info /\
    PruningIndex info <= PruningIndex info' /\
    EntryPointIndex info <= EntryPointIndex info' /\
    PruningIndex info' <= EntryPointIndex info' <= SnapshotIndex info'.
Proof.
  intros Hsi HP HE HS H0 HSEP.
  assert (Hsame : exists info',
            snapshotInfo (tangle w) = Some info' /\
            SnapshotIndex info' = SnapshotIndex info /\
            PruningIndex info <= PruningIndex info' /\
            EntryPointIndex info <= EntryPointIndex info' /\
            PruningIndex info' <= EntryPointIndex info' <= SnapshotIndex info').
  { exists info. repeat split; try done; lia. }
  destruct (guardsPass_dec env info targetIndex) as [Hg|Hg].
  2:{ by rewrite (pruneDatabase_guarded _ _ _ _ _ _ Hsi Hg). }
  set (T := clampedTarget env info targetIndex).
  destruct (getSolidEntryPoints env (tangle w) T) as [err|news] eqn:Hsep.
  { unfold St.exec.
    by rewrite (pruneDatabase_no_entry_points _ _ _ _ _ _ _ Hsi Hg Hsep). }
  unfold AdditionalPruningThreshold in *.
  assert (Hbounds : PruningIndex info < T /\
                    EntryPointIndex info + 51 <= T /\
                    T <= SnapshotIndex info - 51).
  { destruct Hg as (H1 & H2 & H3). fold T in H2, H3.
    unfold AdditionalPruningThreshold in *.
    rewrite (add_small (SolidEntryPointCheckThresholdPast env) 50) in H1 by lia.
    rewrite add_small in H1 by lia. apply Z.ltb_ge in H1.
    rewrite Z.geb_leb in H2. apply Z.leb_gt in H2.
    rewrite (add_small (EntryPointIndex info) 50) in H3 by lia.
    rewrite add_small in H3 by lia.
    rewrite Z.gtb_ltb in H3. apply Z.ltb_ge in H3.
    split; [lia|]. split; [lia|].
    subst T. unfold clampedTarget, AdditionalPruningThreshold.
    rewrite (sub_small (SnapshotIndex info)) by lia.
    rewrite (sub_small _ 50) by lia. rewrite sub_small by lia.
    destruct (_ >? _) eqn:Hgt; [lia|].
    rewrite Z.gtb_ltb in Hgt. apply Z.ltb_ge in Hgt. lia. }
  destruct Hbounds as (HPT & HET & HTS).
  unfold St.exec.
  rewrite (pruneDatabase_running env fuel targetIndex abortSignal w info news Hsi Hg Hsep).
  fold T.
  destruct (phase1_frame T info news w) as (_ & Hs0 & _ & _).
  set (w0 := phase1 T info news w) in *. clearbody w0.
  set (si1 := withEntryPointIndex T info) in *.
  destruct (pruneMilestones_run env T fuel (add (PruningIndex info) 1)
              abortSignal si1 w0 Hs0) as (dl & Hdl & Hs1 & _).
  destruct (pruneMilestones_upTo env T fuel (add (PruningIndex info) 1)
              abortSignal si1 w0) as (_ & dl1 & Hdl1 & Hup).
  destruct (pruneMilestones_from env T (PruningIndex info) ltac:(lia) ltac:(lia)
              fuel (add (PruningIndex info) 1) abortSignal si1 w0)
    as (dl2 & Hdl2 & Hfrom).
  { rewrite (add_1_small _ T) by lia. lia. }
  assert (dl1 = dl) as -> by (eapply app_inv_head; by rewrite <- Hdl, <- Hdl1).
  assert (dl2 = dl) as -> by (eapply app_inv_head; by rewrite <- Hdl, <- Hdl2).
  unfold St.exec in Hs1.
  destruct (pruneMilestones env fuel _ T abortSignal si1 w0) as [l w1].
  destruct (finish_frame l w1) as (-> & _). cbn [snd] in Hs1.
  assert (Hlc : PruningIndex info <= lastCompleted dl (PruningIndex si1) <= T).
  { apply lastCompleted_between; [|cbn; lia].
    apply Forall_forall. intros e He i Hi.
    rewrite Forall_forall in Hup, Hfrom.
    split; [by apply (Hfrom e He)|by apply (Hup e He)]. }
  exists (withPruningIndex (lastCompleted dl (PruningIndex si1)) si1).
  split; [exact Hs1|].
  unfold withPruningIndex, si1, withEntryPointIndex in *.
  cbn [SnapshotIndex PruningIndex EntryPointIndex] in *.
  repeat split; lia.
Qed.

Lemma pruneDatabase_keeps_index_order_witness :
  exists info',
    snapshotInfo
      (tangle (St.exec (pruneDatabase sampleEnv 60 851 [false; false; true])
                 sampleWorld)) = Some info' /\
    PruningIndex info' <= EntryPointIndex info' <= SnapshotIndex info'.
Proof.
  destruct (pruneDatabase_keeps_index_order sampleEnv 60 851 [false; false; true]
              sampleWorld (mkSnapshotInfo 1000 800 800))
    as (info' & Hs & _ & _ & _ & Hord).
  - reflexivity.
  - cbn. lia.
  - cbn. lia.
  - vm_compute. discriminate.
  - cbn. lia.
  - vm_compute. discriminate.
  - exists info'. by split.
Defined.

(** *** Calling again with the same target *)

(** X22. Once a call of pruneDatabase has persisted the entry points for
    its target, no later call with the same target prunes anything, whether
    the first call ran to the end or was aborted: the later call returns
    NoPruningNeeded or NotEnoughHistory from the guards and leaves the store
    as it is. (The target plus AdditionalPruningThreshold + 1 must not wrap
    around.) *)
Theorem same_target_again_is_refused (env : Env) (fuel fuel' : nat)
    (targetIndex : Z) (abortSignal abortSignal' : list bool) (w : World)
    (info : SnapshotInfo) (news : list (Hash * Z)) :
  snapshotInfo (tangle w) = Some info ->
  guardsPass env info targetIndex ->
  let T := clampedTarget env info targetIndex in
  getSolidEntryPoints env (tangle w) T = inr news ->
  0 <= T ->
  T + AdditionalPruningThreshold + 1 <= MaxIndex ->
  let w1 := St.exec (pruneDatabase env fuel targetIndex abortSignal) w in
  exists e,
    pruneDatabase env fuel' targetIndex abortSignal' w1 = (Returned (Some e), w1) /\
    (Cause e = ErrNotEnoughHistory \/ Cause e = ErrNoPruningNeeded).
Proof.
  intros Hsi Hg T Hsep H0 HT w1.
  assert (Hinfo1 : exists info1,
            snapshotInfo (tangle w1) = Some info1 /\
            SnapshotIndex info1 = SnapshotIndex info /\
            EntryPointIndex info1 = T).
  { subst w1. unfold St.exec.
    rewrite (pruneDatabase_running env fuel targetIndex abortSignal w info news
               Hsi Hg Hsep). fold T.
    destruct (phase1_frame T info news w) as (_ & Hs0 & _ & _).
    set (w0 := phase1 T info news w) in *. clearbody w0.
    destruct (pruneMilestones_run env T fuel (add (PruningIndex info) 1)
                abortSignal (withEntryPointIndex T info) w0 Hs0)
      as (dl & _ & Hs1 & _).
    unfold St.exec in Hs1.
    destruct (pruneMilestones env fuel _ T abortSignal _ w0) as [l w'].
    destruct (finish_frame l w') as (-> & _). cbn [snd] in Hs1.
    eexists. split; [exact Hs1|]. by split. }
  destruct Hinfo1 as (info1 & Hs1 & HS1 & HE1).
  destruct (pruneDatabase_guard_failure env fuel' targetIndex abortSignal' w1
              info1 Hs1) as (e & He & Hc & _).
  { intros (_ & _ & H3).
    assert (HT1 : clampedTarget env info1 targetIndex = T).
    { unfold T, clampedTarget. by rewrite HS1. }
    rewrite HT1, HE1 in H3. unfold AdditionalPruningThreshold in *.
    rewrite (add_small T 50) in H3 by lia. rewrite add_small in H3 by lia.
    rewrite Z.gtb_ltb in H3. apply Z.ltb_ge in H3. lia. }
  exists e. by split.
Qed.

Lemma same_target_again_is_refused_witness :
  let w1 := St.exec (pruneDatabase sampleEnv 60 851 [false; false; false; true])
              sampleWorld in
  exists e,
    pruneDatabase sampleEnv 60 851 [] w1 = (Returned (Some e), w1) /\
    (Cause e = ErrNotEnoughHistory \/ Cause e = ErrNoPruningNeeded).
Proof.
  apply (same_target_again_is_refused sampleEnv 60 60 851
           [false; false; false; true] [] sampleWorld
           (mkSnapshotInfo 1000 800 800) [("m851"%string, 851)]).
  - reflexivity.
  - repeat split.
  - reflexivity.
  - vm_compute. discriminate.
  - vm_compute. discriminate.
Defined.

End PruningProperties.

(** * Properties of the cone root indexes *)

Section DagProperties.
Import Dag.

Lemma updateIndexes_youngest (ycri ocri : Z) (c : ConeRootIndexes) :
  youngestConeRootIndex (updateIndexes ycri ocri c) =
  if decide (youngestConeRootIndex c = 0) then ycri
  else Z.max (youngestConeRootIndex c) ycri.
Proof.
  unfold updateIndexes. cbn.
  destruct (Z.eqb_spec (youngestConeRootIndex c) 0) as [->|Hne]; cbn.
  - reflexivity.
  - destruct (decide _) as [?|_]; [done|].
    destruct (Z.ltb_spec (youngestConeRootIndex c) ycri); lia.
Qed.

Lemma updateIndexes_oldest (ycri ocri : Z) (c : ConeRootIndexes) :
  oldestConeRootIndex (updateIndexes ycri ocri c) =
  if decide (oldestConeRootIndex c = 0) then ocri
  else Z.min (oldestConeRootIndex c) ocri.
Proof.
  unfold updateIndexes. cbn.
  destruct (Z.eqb_spec (oldestConeRootIndex c) 0) as [->|Hne]; cbn.
  - reflexivity.
  - destruct (decide _) as [?|_]; [done|].
    rewrite Z.gtb_ltb. destruct (Z.ltb_spec ocri (oldestConeRootIndex c)); lia.
Qed.

(** X23. Whatever calls of updateIndexes a walk makes and in whatever
    order, the youngest cone root index ends up at least as large as the
    oldest one, provided each call is given a youngest index that is not
    below its oldest index; the walk passes a confirmation index or an entry
    point index twice, which satisfies this. *)
Theorem youngest_not_below_oldest (updates : list (Z * Z)) :
  Forall (fun u => u.2 <= u.1) updates ->
  oldestConeRootIndex (applyUpdates updates initialIndexes)
    <= youngestConeRootIndex (applyUpdates updates initialIndexes).
Proof.
  intros HF. unfold applyUpdates.
  assert (Hgen : forall c,
            oldestConeRootIndex c <= youngestConeRootIndex c ->
            oldestConeRootIndex (fold_left (fun c u => updateIndexes u.1 u.2 c) updates c)
              <= youngestConeRootIndex
                   (fold_left (fun c u => updateIndexes u.1 u.2 c) updates c)).
  { induction HF as [|[a b] l Hab _ IH]; intros c Hc; [exact Hc|].
    cbn [fold_left]. apply IH. cbn in Hab.
    rewrite updateIndexes_youngest, updateIndexes_oldest. cbn [fst snd].
    repeat destruct (decide _); lia. }
  apply Hgen. cbn. lia.
Qed.

Lemma youngest_not_below_oldest_witness :
  oldestConeRootIndex (applyUpdates [(5, 5); (9, 7); (3, 3)] initialIndexes)
    <= youngestConeRootIndex (applyUpdates [(5, 5); (9, 7); (3, 3)] initialIndexes).
Proof.
  apply (youngest_not_below_oldest [(5, 5); (9, 7); (3, 3)]).
  repeat constructor; cbn; lia.
Defined.





End DagProperties.
